(** * LightPipeline: a shallow embedding of
      [src/renderer/webgl/pipelines/LightPipeline.js]

    The pipeline object is a record that is threaded through every method.
    JavaScript numbers are IEEE-754 binary64 values (Rocq's primitive floats),
    a [Float32Array] is a list of floats whose stores round to binary32 and
    silently drop out-of-range indices, and the calls that leave the pipeline
    (draw submissions, uniform uploads, texture creation) are appended to the
    command stream of the WebGL context.

    The class defines [initialize], [boot], [batchVert], [batchLight],
    [onBind], [setNormalMapRotation] and [getNormalMap].  The texts of
    [onRender] (lines 304-374), [setTexture2D] (428-451) and [setGameObject]
    (466-487) lie inside block comments and are no part of the program.  The
    uniform sync of a camera pass, which the spec describes and the class
    does not have, is modelled from the spec and marked as such. *)

From Stdlib Require Import Ascii Floats ZArith Lia.
From stdpp Require Import base decidable option list strings pretty gmap.

Set Default Proof Using "Type".

(** ** JavaScript numbers *)

Module JS.

Definition number := float.

Definition isNaN (x : number) : bool := negb (x =? x)%float.

(** [a === b] on two numbers. *)
Definition strict_eq (a b : number) : bool := (a =? b)%float.

(** ToBoolean on a number: [+0], [-0] and [NaN] are falsy. *)
Definition truthy (x : number) : bool :=
  negb (x =? 0)%float && negb (isNaN x).

(** Rounding of a binary64 value to the nearest binary32 value (ties to
    even), as performed by every store into a [Float32Array]. *)
Definition fround (x : number) : number :=
  match Prim2SF x with
  | S754_finite s m e =>
      match binary_normalize 24 128 (if s then Zneg m else Zpos m) e s with
      | S754_finite s' m' e' =>
          SF2Prim (binary_normalize 53 1024
                     (if s' then Zneg m' else Zpos m') e' s')
      | S754_zero s' => if s' then neg_zero else zero
      | S754_infinity s' => if s' then neg_infinity else infinity
      | S754_nan => nan
      end
  | _ => x
  end.

(** [new Float32Array(xs)] *)
Definition Float32Array_of (xs : list number) : list number := fround <$> xs.

(** [arr[i] = v] on a [Float32Array]: the value is rounded; an index outside
    the array is ignored. *)
Definition f32_set (arr : list number) (i : Z) (v : number) : list number :=
  if (0 <=? i)%Z then <[Z.to_nat i := fround v]> arr else arr.

End JS.

Import JS.

(** ** The WebGL context *)

Record TexImage := {
  tex_width : nat;
  tex_height : nat;
  tex_pixels : list N            (* the bytes of the [Uint8Array] *)
}.

(** The calls issued to the renderer and to the GL context, oldest first. *)
Inductive GLCall :=
| DrawArrays (count : nat) (data : list number)
| SetInt1 (name : string) (x : Z)
| SetFloat1 (program : nat) (name : string) (x : number)
| SetFloat2 (program : nat) (name : string) (x y : number)
| SetFloat3 (program : nat) (name : string) (x y z : number)
| SetFloat4 (program : nat) (name : string) (x y z w : number)
| SetMatrix3 (program : nat) (name : string) (transpose : bool)
             (matrix : list number)
| CreateTexture (handle : nat)
| ActiveTexture (unit : nat)
| BindTexture (handle : nat)
| TexImage2D (handle : nat) (image : TexImage).

Record GLContext := {
  calls : list GLCall;
  textures : gmap nat TexImage;     (* image of every texture uploaded so far *)
  created : nat;                    (* handles [0 .. created-1] are taken *)
  activeUnit : nat;
  bound : gmap nat nat              (* texture unit -> bound TEXTURE_2D *)
}.

Definition emit (c : GLCall) (g : GLContext) : GLContext :=
  {| calls := calls g ++ [c]; textures := textures g; created := created g;
     activeUnit := activeUnit g; bound := bound g |}.

(** [gl.createTexture()] returns a handle that was never handed out. *)
Definition createTexture (g : GLContext) : nat * GLContext :=
  (created g,
   {| calls := calls g ++ [CreateTexture (created g)]; textures := textures g;
      created := S (created g); activeUnit := activeUnit g;
      bound := bound g |}).

Definition activeTexture (unit : nat) (g : GLContext) : GLContext :=
  {| calls := calls g ++ [ActiveTexture unit]; textures := textures g;
     created := created g; activeUnit := unit; bound := bound g |}.

Definition bindTexture (h : nat) (g : GLContext) : GLContext :=
  {| calls := calls g ++ [BindTexture h]; textures := textures g;
     created := created g; activeUnit := activeUnit g;
     bound := <[activeUnit g := h]> (bound g) |}.

(** [gl.texImage2D(gl.TEXTURE_2D, 0, gl.RGBA, w, h, 0, gl.RGBA,
    gl.UNSIGNED_BYTE, pixels)] fills the texture bound on the active unit. *)
Definition texImage2D (w h : nat) (pixels : list N) (g : GLContext)
  : GLContext :=
  match bound g !! activeUnit g with
  | Some t =>
      let img := {| tex_width := w; tex_height := h; tex_pixels := pixels |} in
      {| calls := calls g ++ [TexImage2D t img];
         textures := <[t := img]> (textures g);
         created := created g; activeUnit := activeUnit g; bound := bound g |}
  | None => g
  end.

(** ** Collaborator objects *)

Record Color := { color_r : number; color_g : number; color_b : number }.

Record Light := {
  light_x : number;
  light_y : number;
  light_radius : number;
  light_color : Color;             (* [light.color], read by batchLight *)
  light_r : number;                (* [light.r], [light.g], [light.b], *)
  light_g : number;                (* read by the uniform sync *)
  light_b : number;
  light_intensity : number;
  light_alpha : number;
  light_scrollFactorX : number;
  light_scrollFactorY : number;
  light_dirty : bool
}.

Record NormalMap := { glTexture : nat }.

(** ** The pipeline object *)

(** The fields of the WebGLPipeline base class that this file reads or
    writes.  The class itself lives in [../WebGLPipeline.js]. *)
Record WebGLPipeline := {
  gl : GLContext;                  (* [this.gl], also behind [this.renderer] *)
  program : nat;
  renderer_height : number;        (* [this.renderer.height] *)
  width : number;
  height : number;
  vertexViewF32 : list number;
  vertexCount : nat;
  vertexCapacity : nat;
  vertexComponentCount : nat;      (* of [this.currentShader] *)
  active : bool
}.

Record LightPipeline := {
  super : WebGLPipeline;
  LIGHT_COUNT : nat;                          (* see [initialize] *)
  inverseRotationMatrix : list number;
  defaultNormalMap : option NormalMap;        (* [None] is [undefined] *)
  currentNormalMapRotation : option number;   (* [None]: [undefined]/[null] *)
  lightCount : nat;
  forceZero : bool
}.

Definition set_gl (g : GLContext) (b : WebGLPipeline) : WebGLPipeline :=
  {| gl := g; program := program b; renderer_height := renderer_height b;
     width := width b; height := height b;
     vertexViewF32 := vertexViewF32 b; vertexCount := vertexCount b;
     vertexCapacity := vertexCapacity b;
     vertexComponentCount := vertexComponentCount b; active := active b |}.

Definition set_vertexViewF32 (v : list number) (b : WebGLPipeline)
  : WebGLPipeline :=
  {| gl := gl b; program := program b; renderer_height := renderer_height b;
     width := width b; height := height b;
     vertexViewF32 := v; vertexCount := vertexCount b;
     vertexCapacity := vertexCapacity b;
     vertexComponentCount := vertexComponentCount b; active := active b |}.

Definition set_vertexCount (n : nat) (b : WebGLPipeline) : WebGLPipeline :=
  {| gl := gl b; program := program b; renderer_height := renderer_height b;
     width := width b; height := height b;
     vertexViewF32 := vertexViewF32 b; vertexCount := n;
     vertexCapacity := vertexCapacity b;
     vertexComponentCount := vertexComponentCount b; active := active b |}.

Definition set_active (a : bool) (b : WebGLPipeline) : WebGLPipeline :=
  {| gl := gl b; program := program b; renderer_height := renderer_height b;
     width := width b; height := height b;
     vertexViewF32 := vertexViewF32 b; vertexCount := vertexCount b;
     vertexCapacity := vertexCapacity b;
     vertexComponentCount := vertexComponentCount b; active := a |}.

Definition set_super (b : WebGLPipeline) (s : LightPipeline) : LightPipeline :=
  {| super := b; LIGHT_COUNT := LIGHT_COUNT s;
     inverseRotationMatrix := inverseRotationMatrix s;
     defaultNormalMap := defaultNormalMap s;
     currentNormalMapRotation := currentNormalMapRotation s;
     lightCount := lightCount s; forceZero := forceZero s |}.

Definition set_inverseRotationMatrix (m : list number) (s : LightPipeline)
  : LightPipeline :=
  {| super := super s; LIGHT_COUNT := LIGHT_COUNT s;
     inverseRotationMatrix := m;
     defaultNormalMap := defaultNormalMap s;
     currentNormalMapRotation := currentNormalMapRotation s;
     lightCount := lightCount s; forceZero := forceZero s |}.

Definition set_defaultNormalMap (d : option NormalMap) (s : LightPipeline)
  : LightPipeline :=
  {| super := super s; LIGHT_COUNT := LIGHT_COUNT s;
     inverseRotationMatrix := inverseRotationMatrix s;
     defaultNormalMap := d;
     currentNormalMapRotation := currentNormalMapRotation s;
     lightCount := lightCount s; forceZero := forceZero s |}.

Definition set_currentNormalMapRotation (r : option number)
  (s : LightPipeline) : LightPipeline :=
  {| super := super s; LIGHT_COUNT := LIGHT_COUNT s;
     inverseRotationMatrix := inverseRotationMatrix s;
     defaultNormalMap := defaultNormalMap s;
     currentNormalMapRotation := r;
     lightCount := lightCount s; forceZero := forceZero s |}.

Definition set_lightCount (n : nat) (s : LightPipeline) : LightPipeline :=
  {| super := super s; LIGHT_COUNT := LIGHT_COUNT s;
     inverseRotationMatrix := inverseRotationMatrix s;
     defaultNormalMap := defaultNormalMap s;
     currentNormalMapRotation := currentNormalMapRotation s;
     lightCount := n; forceZero := forceZero s |}.

(** A method body is a sequence of statements, each a state transformer. *)
Definition stmt := LightPipeline -> LightPipeline.

Definition run (body : list stmt) (s : LightPipeline) : LightPipeline :=
  foldl (fun st c => c st) s body.

(** A statement that only touches the inherited part of the object. *)
Definition on_super (f : WebGLPipeline -> WebGLPipeline) : stmt :=
  fun s => set_super (f (super s)) s.

(** A call that reaches the renderer. *)
Definition call (c : GLCall) : stmt :=
  on_super (fun b => set_gl (emit c (gl b)) b).

(** ** Inherited methods *)

(** Modelled from the spec: [shouldFlush(amount)] of the WebGLPipeline base
    class, whose source is outside this file.  The batch has room for
    [amount] more vertices when they fit under its capacity; a flush is due
    when they do not. *)
Definition shouldFlush (amount : nat) (s : LightPipeline) : bool :=
  bool_decide (vertexCapacity (super s) < vertexCount (super s) + amount).

(** Modelled from the spec: [flush()] of the WebGLPipeline base class, whose
    source is outside this file: it submits the accumulated vertex range as
    one draw invocation and resets the write cursor to zero. *)
Definition flush : stmt :=
  on_super (fun b =>
    set_vertexCount 0
      (set_gl (emit (DrawArrays (vertexCount b)
                       (take (vertexCount b * vertexComponentCount b)
                             (vertexViewF32 b)))
                    (gl b)) b)).

(** ** batchVert (lines 233-250) *)

(** [vertexViewF32[i] = v] *)
Definition store (i : Z) (v : number) : stmt :=
  on_super (fun b => set_vertexViewF32 (f32_set (vertexViewF32 b) i v) b).

(** [this.vertexCount++] *)
Definition incr_vertexCount : stmt :=
  on_super (fun b => set_vertexCount (S (vertexCount b)) b).

(** The ten statements after the two [var]s; the k-th pre-increment
    [++vertexOffset] evaluates to [vertexOffset + k]. *)
Definition batchVert_body (vertexOffset : Z)
  (x y lightX lightY radius r g b a : number) : list stmt :=
  [ store (vertexOffset + 1) x;
    store (vertexOffset + 2) y;
    store (vertexOffset + 3) lightX;
    store (vertexOffset + 4) lightY;
    store (vertexOffset + 5) radius;
    store (vertexOffset + 6) r;
    store (vertexOffset + 7) g;
    store (vertexOffset + 8) b;
    store (vertexOffset + 9) a;
    incr_vertexCount ].

Definition batchVert (x y lightX lightY radius r g b a : number) : stmt :=
  fun s =>
    let vertexOffset :=
      (Z.of_nat (vertexCount (super s))
       * Z.of_nat (vertexComponentCount (super s)) - 1)%Z in
    run (batchVert_body vertexOffset x y lightX lightY radius r g b a) s.

(** ** The methods of LightPipeline *)

Section Methods.

(** The collaborators whose code is outside this file: the camera's
    transform matrix with its [transformPoint], the light manager's [cull],
    the [boot] of the base class and the host's [Math.cos] and [Math.sin]. *)
Context {TransformMatrix : Type}.

Record Point := { point_x : number; point_y : number }.

Record Camera := {
  camera_x : number;
  camera_y : number;
  camera_rotation : number;
  camera_zoom : number;
  camera_scrollX : number;
  camera_scrollY : number;
  camera_alpha : number;
  camera_dirty : bool;
  camera_matrix : TransformMatrix
}.

Record LightManager := {
  lights : list Light;
  lm_active : bool;
  ambientColor : Color
}.

(** [scene.sys.lights]; [None] when the scene has no light manager. *)
Record Scene := { sys_lights : option LightManager }.

Variable transformPoint : TransformMatrix -> number -> number -> Point -> Point.
Variable cull : LightManager -> Camera -> list Light.
Variable WebGLPipeline_boot : WebGLPipeline -> WebGLPipeline.
Variables Math_cos Math_sin : number -> number.

(** *** The constructor (lines 73-182) *)

(** [base] is the object as [WebGLPipeline.call(this, config)] leaves it and
    [maxLights] is [config.game.renderer.config.maxLights].  The constructor
    does not assign [currentNormalMapRotation].  The three scratch matrices
    and the two shader fields that it declares are read by no method of this
    file and are left out, here and in [boot].

    In the source [LIGHT_COUNT] is no field of the object: it is one variable
    of the module (line 17), which every constructor call overwrites (line
    75) and which all instances share.  The record holds the value that the
    constructor of this object assigned.  No method of the class reads it;
    its one reader below is the uniform sync, which is modelled from the
    spec, where the maximum is fixed at the construction of the pipeline. *)
Definition initialize (maxLights : nat) (base : WebGLPipeline)
  : LightPipeline :=
  {| super := base;
     LIGHT_COUNT := maxLights;
     inverseRotationMatrix :=
       Float32Array_of [1; 0; 0;
                        0; 1; 0;
                        0; 0; 1]%float;
     defaultNormalMap := None;
     currentNormalMapRotation := None;
     lightCount := 0;
     forceZero := true |}.

(** *** boot (lines 193-211) *)

(** The last two statements of the method, [this.pointLightShader =
    this.shaders[0]] and [this.lightShader = this.shaders[1]] (lines
    209-210), assign the two shader fields that the record leaves out. *)
Definition boot : stmt := fun s =>
  let s := on_super WebGLPipeline_boot s in
  let (tempTexture, g) := createTexture (gl (super s)) in
  let g := activeTexture 0 g in
  let g := bindTexture tempTexture g in
  let g := texImage2D 1 1 [127; 127; 255; 255]%N g in
  let s := on_super (set_gl g) s in
  set_defaultNormalMap (Some {| glTexture := tempTexture |}) s.

(** *** batchLight (lines 252-274) *)

Definition batchLight (light : Light) (camera : Camera)
  (x0 y0 x1 y1 x2 y2 x3 y3 lightX lightY : number) : stmt := fun s =>
  let color := light_color light in
  let intensity := light_intensity light in
  let radius := light_radius light in
  let r := (color_r color * intensity)%float in
  let g := (color_g color * intensity)%float in
  let b := (color_b color * intensity)%float in
  let a := (camera_alpha camera * light_alpha light)%float in
  run [ (fun s => if shouldFlush 6 s then flush s else s);
        batchVert x0 y0 lightX lightY radius r g b a;
        batchVert x1 y1 lightX lightY radius r g b a;
        batchVert x2 y2 lightX lightY radius r g b a;
        batchVert x0 y0 lightX lightY radius r g b a;
        batchVert x2 y2 lightX lightY radius r g b a;
        batchVert x3 y3 lightX lightY radius r g b a ] s.

(** *** onBind (lines 286-291) *)

Definition onBind : stmt := fun s =>
  run [ call (SetInt1 "uMainSampler" 0);
        call (SetInt1 "uNormSampler" 1);
        call (SetFloat2 (program (super s)) "uResolution"
                (width (super s) / 2)%float (height (super s) / 2)%float) ]
      s.

(** *** setNormalMapRotation (lines 386-417) *)

(** [rotation !== this.currentNormalMapRotation]: a number is never
    strictly equal to [undefined] or [null]. *)
Definition rotation_differs (rotation : number) (current : option number)
  : bool :=
  match current with
  | Some c => negb (strict_eq rotation c)
  | None => true
  end.

(** [m[i] = v] on [this.inverseRotationMatrix]. *)
Definition set_matrix (i : Z) (v : number) : stmt := fun s =>
  set_inverseRotationMatrix (f32_set (inverseRotationMatrix s) i v) s.

Definition setNormalMapRotation (rotation : number) : stmt := fun s =>
  if rotation_differs rotation (currentNormalMapRotation s)
     || bool_decide (vertexCount (super s) = 0)
  then
    let s := if bool_decide (0 < vertexCount (super s)) then flush s else s in
    let s :=
      if truthy rotation then
        let rot := (- rotation)%float in
        let c := Math_cos rot in
        let sn := Math_sin rot in
        run [ set_matrix 1 sn;
              set_matrix 3 (- sn)%float;
              set_matrix 4 c;
              set_matrix 0 c ] s
      else
        run [ set_matrix 4 1%float;
              set_matrix 0 1%float;
              set_matrix 3 0%float;
              set_matrix 1 0%float ] s in
    let s :=
      call (SetMatrix3 (program (super s)) "uInverseRotationMatrix" false
              (inverseRotationMatrix s)) s in
    set_currentNormalMapRotation (Some rotation) s
  else s.

(** *** getNormalMap (lines 501-535) *)

Record Frame := { sourceIndex : nat }.

(** [dataSource] holds the texture sources of the normal maps; each has a
    [glTexture]. *)
Record Texture := { dataSource : list NormalMap }.

Record Tileset := { image : option Texture }.

Inductive TilesetProp :=
| OneTileset (t : Tileset)
| TilesetArray (ts : list Tileset).

Record GameObject := {
  displayTexture : option Texture;
  displayFrame : option Frame;
  texture : option Texture;
  frame : option Frame;
  tileset : option TilesetProp;
  rotation : number
}.

(** Reading a property of [undefined] throws. *)
Inductive result (A : Type) :=
| Ok (a : A)
| TypeError.
Arguments Ok {A} a.
Arguments TypeError {A}.

Definition bind {A B} (r : result A) (k : A -> result B) : result B :=
  match r with
  | Ok a => k a
  | TypeError => TypeError
  end.

Notation "x <- r ;; k" := (bind r (fun x => k))
  (at level 100, r at next level, right associativity).

Definition deref {A} (o : option A) : result A :=
  match o with
  | Some a => Ok a
  | None => TypeError
  end.

Definition getNormalMap (gameObject : option GameObject) (s : LightPipeline)
  : result nat :=
  normalTexture <-
    match gameObject with
    | None => Ok (defaultNormalMap s)
    | Some go =>
        match displayTexture go with
        | Some dt =>
            f <- deref (displayFrame go) ;;
            Ok (dataSource dt !! sourceIndex f)
        | None =>
            match texture go with
            | Some t =>
                f <- deref (frame go) ;;
                Ok (dataSource t !! sourceIndex f)
            | None =>
                match tileset go with
                | Some (TilesetArray ts) =>
                    t <- deref (ts !! 0) ;;
                    i <- deref (image t) ;;
                    Ok (dataSource i !! 0)
                | Some (OneTileset t) =>
                    i <- deref (image t) ;;
                    Ok (dataSource i !! 0)
                | None => Ok None
                end
            end
        end
    end ;;
  let normalTexture :=
    match normalTexture with
    | Some n => Some n
    | None => defaultNormalMap s
    end in
  n <- deref normalTexture ;;
  Ok (glTexture n).

(** *** The uniform sync of a camera pass *)

(** The class has no method for the sync.  The one text of it in the source,
    [onRender] at lines 304-374, lies inside the block comment that opens at
    line 293 and closes at line 375: the class defines no [onRender] and the
    program never runs those lines.  The sync is therefore modelled from the
    spec (section 4.3, LightUniformSync); the commented-out text words the
    same steps and is cited by line where it does. *)

(** The name of the uniform of slot [i], up to the field: the [uLights]
    array of light structs that the class lists among its uniforms (line
    57), as the commented-out line 355 spells it, ['uLights[' + i + '].']. *)
Definition lightName (i : nat) : string := "uLights[" +:+ pretty i +:+ "].".

(** Modelled from the spec: the step of the sync for the active lights from
    index [i] on, which the class does not have.  "For each active light at
    index i: transform its world position through the camera's transform
    matrix, then convert to the pipeline's screen-space convention by
    subtracting scroll offset scaled by zoom and scroll factor, and flipping
    the Y axis against render-target height.  Upload the resulting screen
    position unconditionally.  If light.dirty, additionally upload color,
    intensity, and radius for that slot, then clear the light's dirty flag."
    The transform is the [transformPoint] of the camera matrix, which fills
    the point object handed to it; the sync hands it one object throughout.
    The lights come back as the step leaves them.  The commented-out lines
    352-369 read the same. *)
Fixpoint uploadLights (camera : Camera) (point : Point) (i : nat)
  (ls : list Light) (s : LightPipeline) : LightPipeline * list Light :=
  match ls with
  | [] => (s, [])
  | light :: rest =>
      let program := program (super s) in
      let height := renderer_height (super s) in
      let point :=
        transformPoint (camera_matrix camera) (light_x light) (light_y light)
          point in
      let s :=
        call (SetFloat2 program (lightName i +:+ "position")
                (point_x point
                 - (camera_scrollX camera * light_scrollFactorX light
                    * camera_zoom camera))%float
                (height
                 - (point_y point
                    - (camera_scrollY camera * light_scrollFactorY light)
                      * camera_zoom camera))%float) s in
      let (s, light) :=
        if light_dirty light then
          (run [ call (SetFloat3 program (lightName i +:+ "color")
                         (light_r light) (light_g light) (light_b light));
                 call (SetFloat1 program (lightName i +:+ "intensity")
                         (light_intensity light));
                 call (SetFloat1 program (lightName i +:+ "radius")
                         (light_radius light)) ] s,
           {| light_x := light_x light; light_y := light_y light;
              light_radius := light_radius light;
              light_color := light_color light;
              light_r := light_r light; light_g := light_g light;
              light_b := light_b light;
              light_intensity := light_intensity light;
              light_alpha := light_alpha light;
              light_scrollFactorX := light_scrollFactorX light;
              light_scrollFactorY := light_scrollFactorY light;
              light_dirty := false |})
        else (s, light) in
      let (s, rest) := uploadLights camera point (S i) rest s in
      (s, light :: rest)
  end.

(** Modelled from the spec: the reset of the sync, which the class does not
    have: "zero the radius field of every slot index in [0, maxCapacity)",
    the capacity being the configured maximum light count.  The
    commented-out lines 335-339 read the same. *)
Definition resetLights (s : LightPipeline) : list stmt :=
  (fun i => call (SetFloat1 (program (super s))
                    ("uLights[" +:+ pretty i +:+ "].radius") 0%float))
    <$> seq 0 (LIGHT_COUNT s).

(** Modelled from the spec: the per-camera-pass uniform sync, which the
    class does not have.  Its inputs are the active lights, which the light
    manager has culled and capped, the ambient colour and the camera.
    - "Zero active lights is a valid state; the pass becomes a no-op
      pass-through."
    - "If the number of active lights differs from the count synced last
      frame, zero the radius field of every slot index in [0, maxCapacity)
      unconditionally, then record the new count."
    - "If camera.dirty, upload the camera's (x, y, rotation, zoom) as a
      single 4-component uniform."
    - "Upload ambient color unconditionally once per pass."
    - Then the step for each active light, [uploadLights].
    The uniforms are [uCamera] and [uAmbientLightColor] of the class's list
    of uniforms (lines 53-55).  The result carries the lights as the sync
    leaves them. *)
Definition LightUniformSync (activeLights : list Light) (ambient : Color)
  (camera : Camera) (s : LightPipeline) : LightPipeline * list Light :=
  match activeLights with
  | [] => (s, [])
  | _ :: _ =>
      let program := program (super s) in
      let point := {| point_x := 0%float; point_y := 0%float |} in
      let s :=
        if bool_decide (length activeLights <> lightCount s)
        then set_lightCount (length activeLights) (run (resetLights s) s)
        else s in
      let s :=
        if camera_dirty camera
        then call (SetFloat4 program "uCamera" (camera_x camera)
                     (camera_y camera) (camera_rotation camera)
                     (camera_zoom camera)) s
        else s in
      let s :=
        call (SetFloat3 program "uAmbientLightColor"
                (color_r ambient) (color_g ambient) (color_b ambient)) s in
      uploadLights camera point 0 activeLights s
  end.

(** *** The text of onRender (lines 304-374, inside a block comment) *)

(** This is the text of lines 304-374 as it would run.  It is not part of
    the class: the lines lie inside the block comment of lines 293-375, so
    the program never runs them, and nothing is stated of the program
    through this definition.  Its one use is as a step of the call histories
    below, so that what is proved of every history also holds of a build in
    which the comment markers are removed.  The result carries the culled
    lights as the text leaves them. *)
Definition onRender (scene : Scene) (camera : Camera) (s : LightPipeline)
  : LightPipeline * list Light :=
  let s := on_super (set_active false) s in
  match sys_lights scene with
  | None => (s, [])
  | Some lightManager =>
      if bool_decide (length (lights lightManager) <= 0)
         || negb (lm_active lightManager)
      then (s, [])
      else
        let lights := cull lightManager camera in
        let lightCount' := Nat.min (length lights) (LIGHT_COUNT s) in
        if bool_decide (lightCount' = 0) then (s, lights)
        else
          let s := on_super (set_active true) s in
          let program := program (super s) in
          let point := {| point_x := 0%float; point_y := 0%float |} in
          let s :=
            if bool_decide (lightCount' <> lightCount s)
            then set_lightCount lightCount' (run (resetLights s) s)
            else s in
          let s :=
            if camera_dirty camera
            then call (SetFloat4 program "uCamera" (camera_x camera)
                         (camera_y camera) (camera_rotation camera)
                         (camera_zoom camera)) s
            else s in
          let s :=
            call (SetFloat3 program "uAmbientLightColor"
                    (color_r (ambientColor lightManager))
                    (color_g (ambientColor lightManager))
                    (color_b (ambientColor lightManager))) s in
          let (s, synced) :=
            uploadLights camera point 0 (take lightCount' lights) s in
          (set_currentNormalMapRotation None s,
           synced ++ drop lightCount' lights)
  end.

(** *** Call histories *)

(** The pipeline objects that arise from a constructor call followed by any
    number of method calls; [reach_super] stands for the inherited methods,
    which see the base-class fields only.  [reach_onRender] is no method of
    the class (see [onRender]): it only adds histories. *)
Inductive reachable : LightPipeline -> Prop :=
| reach_initialize maxLights base :
    reachable (initialize maxLights base)
| reach_super f s :
    reachable s -> reachable (on_super f s)
| reach_boot s :
    reachable s -> reachable (boot s)
| reach_batchVert x y lightX lightY radius r g b a s :
    reachable s -> reachable (batchVert x y lightX lightY radius r g b a s)
| reach_batchLight light camera x0 y0 x1 y1 x2 y2 x3 y3 lightX lightY s :
    reachable s ->
    reachable
      (batchLight light camera x0 y0 x1 y1 x2 y2 x3 y3 lightX lightY s)
| reach_onBind s :
    reachable s -> reachable (onBind s)
| reach_onRender scene camera s :
    reachable s -> reachable (onRender scene camera s).1
| reach_setNormalMapRotation rotation s :
    reachable s -> reachable (setNormalMapRotation rotation s).

End Methods.

Arguments Ok {A} a.
Arguments TypeError {A}.

(** * Observing the pipeline *)

(** ** Reading the state back *)

(** The program, name and value that an upload call sets. *)
Definition uniform_of (c : GLCall) : option (nat * string * list number) :=
  match c with
  | SetFloat1 p n x => Some (p, n, [x])
  | SetFloat2 p n x y => Some (p, n, [x; y])
  | SetFloat3 p n x y z => Some (p, n, [x; y; z])
  | SetFloat4 p n x y z w => Some (p, n, [x; y; z; w])
  | SetMatrix3 p n _ m => Some (p, n, m)
  | _ => None
  end.

Definition upload (m : gmap (nat * string) (list number)) (c : GLCall)
  : gmap (nat * string) (list number) :=
  match uniform_of c with
  | Some (p, n, v) => <[(p, n) := v]> m
  | None => m
  end.

(** The value of every float uniform after a sequence of calls, by program
    and name: the last upload wins. *)
Definition uniforms (log : list GLCall) : gmap (nat * string) (list number) :=
  foldl upload ∅ log.

(** The uniform that a call writes, if it writes one. *)
Definition key_of (c : GLCall) : option (nat * string) :=
  (fun u => u.1) <$> uniform_of c.

(** The draw submissions among a sequence of calls. *)
Definition is_draw (c : GLCall) : bool :=
  match c with
  | DrawArrays _ _ => true
  | _ => false
  end.

Definition flushes (log : list GLCall) : list GLCall := filter is_draw log.

(** The uploads of the rotation matrix among a sequence of calls. *)
Definition is_matrixUpload (c : GLCall) : bool :=
  match c with
  | SetMatrix3 _ _ _ _ => true
  | _ => false
  end.

Definition matrixUploads (log : list GLCall) : list GLCall :=
  filter is_matrixUpload log.

(** The texture creations among a sequence of calls are counted with this
    test. *)
Definition is_createTexture (c : GLCall) : bool :=
  match c with
  | CreateTexture _ => true
  | _ => false
  end.

(** The nine floats of vertex number [n] of the batch. *)
Definition vertexAt (s : LightPipeline) (n : nat) : list number :=
  take 9 (drop (n * vertexComponentCount (super s)) (vertexViewF32 (super s))).

(** The layout that the attribute list of the constructor (lines 93-114)
    fixes: nine floats per vertex, in a buffer of [vertexCapacity] vertices. *)
Definition layout (s : LightPipeline) : Prop :=
  vertexComponentCount (super s) = 9
  /\ length (vertexViewF32 (super s)) = vertexCapacity (super s) * 9.

(** A 3x3 matrix whose last row and last column are those of the identity. *)
Definition homogeneous (m : list number) : Prop :=
  length m = 9
  /\ m !! 2 = Some 0%float /\ m !! 5 = Some 0%float
  /\ m !! 6 = Some 0%float /\ m !! 7 = Some 0%float
  /\ m !! 8 = Some 1%float.

(** The rows of a 3x3 matrix that is stored column by column, which is how
    an upload with [transpose = false] reads the array. *)
Definition rows (m : list number) : list (list number) :=
  (fun i => [ default 0%float (m !! i); default 0%float (m !! (3 + i));
              default 0%float (m !! (6 + i)) ]) <$> [0; 1; 2].

(** Entry-wise distance at most [eps]. *)
Definition close (eps : number) (m t : list number) : bool :=
  bool_decide (length m = length t)
  && forallb (fun p => (abs (p.1 - p.2) <=? eps)%float) (zip m t).

(** The double nearest to pi/2, as [Math.PI / 2] evaluates. *)
Definition halfPi : number := 0x1.921fb54442d18p+0%float.

(** ** One batchLight call as a value *)

Record LightQuad {TransformMatrix : Type} := {
  q_light : Light;
  q_camera : @Camera TransformMatrix;
  q_x0 : number; q_y0 : number;
  q_x1 : number; q_y1 : number;
  q_x2 : number; q_y2 : number;
  q_x3 : number; q_y3 : number;
  q_lightX : number; q_lightY : number
}.
Arguments LightQuad : clear implicits.

(** The call [batchLight(light, camera, x0, y0, ..., lightX, lightY)] with
    the arguments that [q] holds, and a sequence of such calls. *)
Definition batchQuad {T} (q : LightQuad T) : stmt :=
  batchLight (q_light q) (q_camera q) (q_x0 q) (q_y0 q) (q_x1 q) (q_y1 q)
    (q_x2 q) (q_y2 q) (q_x3 q) (q_y3 q) (q_lightX q) (q_lightY q).

Definition batchQuads {T} (qs : list (LightQuad T)) : stmt :=
  fun s => foldl (fun st q => batchQuad q st) s qs.

(** The fields that every vertex of a quad shares: light position, radius
    and the premultiplied colour. *)
Definition lightFields {T} (q : LightQuad T) : list number :=
  [ q_lightX q; q_lightY q; light_radius (q_light q);
    (color_r (light_color (q_light q)) * light_intensity (q_light q))%float;
    (color_g (light_color (q_light q)) * light_intensity (q_light q))%float;
    (color_b (light_color (q_light q)) * light_intensity (q_light q))%float;
    (camera_alpha (q_camera q) * light_alpha (q_light q))%float ].

(** The two triangles (corner0, corner1, corner2) and (corner0, corner2,
    corner3). *)
Definition quadCorners {T} (q : LightQuad T) : list (number * number) :=
  [ (q_x0 q, q_y0 q); (q_x1 q, q_y1 q); (q_x2 q, q_y2 q);
    (q_x0 q, q_y0 q); (q_x2 q, q_y2 q); (q_x3 q, q_y3 q) ].

(** The six vertices of a quad, nine numbers each: a corner, then the light
    fields. *)
Definition quadVertices {T} (q : LightQuad T) : list (list number) :=
  (fun c => c.1 :: c.2 :: lightFields q) <$> quadCorners q.
Arguments quadVertices {T} q : simpl never.

(** The six [batchVert] statements of [batchLight]. *)
Definition quadBody {T} (q : LightQuad T) : list stmt :=
  (fun v : list number =>
     match v with
     | [x; y; lightX; lightY; radius; r; g; b; a] =>
         batchVert x y lightX lightY radius r g b a
     | _ => fun s => s
     end) <$> quadVertices q.

(** The vertices of a sequence of calls, in call order. *)
Definition allVertices {T} (qs : list (LightQuad T)) : list (list number) :=
  concat (quadVertices <$> qs).

(** ** Statements in bulk *)

(** Consecutive stores into the vertex buffer, from index [i] on. *)
Fixpoint stores (i : nat) (vs : list number) : list stmt :=
  match vs with
  | [] => []
  | v :: vs => store (Z.of_nat i) v :: stores (S i) vs
  end.

(** [vs] appended to the batch at the write cursor. *)
Definition appended (vs : list (list number)) : stmt :=
  on_super (fun b =>
    set_vertexCount (length vs + vertexCount b)
      (set_vertexViewF32
         (list_inserts (vertexCount b * 9) (fround <$> concat vs)
            (vertexViewF32 b)) b)).

(** Several calls in a row. *)
Definition emits (cs : list GLCall) : stmt :=
  on_super (fun b =>
    set_gl {| calls := calls (gl b) ++ cs; textures := textures (gl b);
              created := created (gl b); activeUnit := activeUnit (gl b);
              bound := bound (gl b) |} b).

(** A statement that leaves [inverseRotationMatrix] alone. *)
Definition keeps_matrix (c : stmt) : Prop :=
  forall s, inverseRotationMatrix (c s) = inverseRotationMatrix s.

(** ** The rotation matrix and the uniform names *)

(** The array that [setNormalMapRotation] leaves and uploads: the rotation
    by [-rotation] in the top-left block, stored column by column, or the
    identity when [rotation] is falsy. *)
Definition inverseRotation (Math_cos Math_sin : number -> number)
  (rotation : number) : list number :=
  if truthy rotation then
    let c := Math_cos (- rotation)%float in
    let sn := Math_sin (- rotation)%float in
    [ fround c; fround sn; 0; fround (- sn); fround c; 0; 0; 0; 1 ]%float
  else [ 1; 0; 0; 0; 1; 0; 0; 0; 1 ]%float.

(** A string without a closing bracket, such as the decimal digits of a slot
    index. *)
Fixpoint no_bracket (s : string) : Prop :=
  match s with
  | EmptyString => True
  | String c s' => c <> "]"%char /\ no_bracket s'
  end.

(** ** The calls of a uniform sync *)

Section Observers.

Context {TransformMatrix : Type}.
Variable transformPoint : TransformMatrix -> number -> number -> Point -> Point.

(** The [point] object as the step for the light at index [i] finds it. *)
Fixpoint pointBefore (camera : @Camera TransformMatrix) (point : Point)
  (ls : list Light) (i : nat) : Point :=
  match i, ls with
  | S i', light :: rest =>
      pointBefore camera
        (transformPoint (camera_matrix camera) (light_x light) (light_y light)
           point) rest i'
  | _, _ => point
  end.

(** The position upload for [light] in slot [i], from the transformed
    [point]. *)
Definition positionCall (program : nat) (height : number)
  (camera : @Camera TransformMatrix) (i : nat) (light : Light)
  (point : Point) : GLCall :=
  SetFloat2 program (lightName i +:+ "position")
    (point_x point
     - (camera_scrollX camera * light_scrollFactorX light
        * camera_zoom camera))%float
    (height
     - (point_y point
        - (camera_scrollY camera * light_scrollFactorY light)
          * camera_zoom camera))%float.

(** The three further uploads for a light whose [dirty] flag is set. *)
Definition dirtyCalls (program : nat) (i : nat) (light : Light)
  : list GLCall :=
  if light_dirty light then
    [ SetFloat3 program (lightName i +:+ "color")
        (light_r light) (light_g light) (light_b light);
      SetFloat1 program (lightName i +:+ "intensity") (light_intensity light);
      SetFloat1 program (lightName i +:+ "radius") (light_radius light) ]
  else [].

(** The calls of [uploadLights], from slot [i] on. *)
Fixpoint uploadCalls (program : nat) (height : number)
  (camera : @Camera TransformMatrix) (point : Point) (i : nat)
  (ls : list Light) : list GLCall :=
  match ls with
  | [] => []
  | light :: rest =>
      let point :=
        transformPoint (camera_matrix camera) (light_x light) (light_y light)
          point in
      positionCall program height camera i light point
      :: dirtyCalls program i light
      ++ uploadCalls program height camera point (S i) rest
  end.

(** The calls of [resetLights]. *)
Definition resetCalls (program : nat) (count : nat) : list GLCall :=
  (fun i => SetFloat1 program ("uLights[" +:+ pretty i +:+ "].radius") 0%float)
    <$> seq 0 count.

(** The calls of a sync after the reset: camera, ambient colour and the
    step for each light. *)
Definition uploadsOfSync (activeLights : list Light) (ambient : Color)
  (camera : @Camera TransformMatrix) (s : LightPipeline) : list GLCall :=
  (if camera_dirty camera
   then [ SetFloat4 (program (super s)) "uCamera" (camera_x camera)
            (camera_y camera) (camera_rotation camera) (camera_zoom camera) ]
   else [])
  ++ [ SetFloat3 (program (super s)) "uAmbientLightColor"
         (color_r ambient) (color_g ambient) (color_b ambient) ]
  ++ uploadCalls (program (super s)) (renderer_height (super s)) camera
       {| point_x := 0%float; point_y := 0%float |} 0 activeLights.

(** The calls of a sync of at least one light. *)
Definition syncCalls (activeLights : list Light) (ambient : Color)
  (camera : @Camera TransformMatrix) (s : LightPipeline) : list GLCall :=
  (if bool_decide (length activeLights <> lightCount s)
   then resetCalls (program (super s)) (LIGHT_COUNT s) else [])
  ++ uploadsOfSync activeLights ambient camera s.

End Observers.

(** ** The sources of a normal map *)

(** The three places a normal map can come from, each taken on its own. *)
Definition viaDisplayTexture (go : GameObject) : option NormalMap :=
  dt ← displayTexture go; f ← displayFrame go; dataSource dt !! sourceIndex f.

Definition viaTexture (go : GameObject) : option NormalMap :=
  t ← texture go; f ← frame go; dataSource t !! sourceIndex f.

Definition viaTileset (go : GameObject) : option NormalMap :=
  ts ← tileset go;
  t ← match ts with
      | TilesetArray l => l !! 0
      | OneTileset t => Some t
      end;
  i ← image t;
  dataSource i !! 0.

(** A renderable whose sources are whole: a texture comes with its frame and
    a tileset with its image, so that [getNormalMap] never reads a property
    of [undefined]. *)
Definition complete (go : GameObject) : Prop :=
  (is_Some (displayTexture go) -> is_Some (displayFrame go))
  /\ (is_Some (texture go) -> is_Some (frame go))
  /\ match tileset go with
     | Some (TilesetArray l) => exists t, l !! 0 = Some t /\ is_Some (image t)
     | Some (OneTileset t) => is_Some (image t)
     | None => True
     end.

(** * Worked examples *)

Definition emptyContext : GLContext :=
  {| calls := []; textures := ∅; created := 0; activeUnit := 0; bound := ∅ |}.

(** Modelled from the spec: the object as the constructor of the
    WebGLPipeline base class, whose source is outside this file, leaves it:
    an empty batch buffer for [capacity] vertices of nine floats each, with
    the write cursor at zero. *)
Definition WebGLPipeline_new (capacity : nat) : WebGLPipeline :=
  {| gl := emptyContext; program := 1;
     renderer_height := 600%float; width := 800%float; height := 600%float;
     vertexViewF32 := replicate (capacity * 9) 0%float;
     vertexCount := 0; vertexCapacity := capacity;
     vertexComponentCount := 9; active := false |}.

Definition exLight (x radius : number) (dirty : bool) : Light :=
  {| light_x := x; light_y := 50%float; light_radius := radius;
     light_color := {| color_r := 1%float; color_g := 0.5%float;
                       color_b := 0.25%float |};
     light_r := 1%float; light_g := 0.5%float; light_b := 0.25%float;
     light_intensity := 2%float; light_alpha := 0.5%float;
     light_scrollFactorX := 1%float; light_scrollFactorY := 1%float;
     light_dirty := dirty |}.

(** A camera whose matrix is the identity, scrolled to [scrollX]. *)
Definition exCamera (scrollX : number) : @Camera unit :=
  {| camera_x := 0%float; camera_y := 0%float; camera_rotation := 0%float;
     camera_zoom := 1%float; camera_scrollX := scrollX;
     camera_scrollY := 0%float; camera_alpha := 0.5%float;
     camera_dirty := true; camera_matrix := tt |}.

Definition exTransformPoint (m : unit) (x y : number) (point : Point)
  : Point :=
  {| point_x := x; point_y := y |}.

(** A light manager that keeps the lights within 1000 units of the camera's
    scroll position. *)
Definition exCull (lightManager : LightManager) (camera : @Camera unit)
  : list Light :=
  List.filter
    (fun l => (abs (light_x l - camera_scrollX camera) <=? 1000)%float)
    (lights lightManager).

(** Two dirty lights and an ambient colour. *)
Definition exLights : list Light :=
  [ exLight 100%float 80%float true; exLight 1500%float 40%float true ].

Definition exAmbient : Color :=
  {| color_r := 0.25%float; color_g := 0.25%float; color_b := 0.25%float |}.

Definition exQuad : LightQuad unit :=
  {| q_light := exLight 100%float 80%float true;
     q_camera := exCamera 0%float;
     q_x0 := 0%float; q_y0 := 0%float; q_x1 := 0%float; q_y1 := 64%float;
     q_x2 := 64%float; q_y2 := 64%float; q_x3 := 64%float; q_y3 := 0%float;
     q_lightX := 100%float; q_lightY := 550%float |}.

(** A host's [Math.cos] and [Math.sin] on the arguments that the examples
    use: 0 and plus or minus pi/2. *)
Definition hostCos (x : number) : number :=
  if (abs x =? halfPi)%float then 0x1.1a62633145c07p-54%float else 1%float.

Definition hostSin (x : number) : number :=
  if (x =? halfPi)%float then 1%float
  else if (x =? - halfPi)%float then (-1)%float
  else 0%float.

(** A base class whose [boot] has nothing of its own to set up. *)
Definition exBoot (b : WebGLPipeline) : WebGLPipeline := b.

(** A fresh pipeline with room for one quad, and the same with one quad
    batched at rotation 0. *)
Definition exFresh : LightPipeline := initialize 10 (WebGLPipeline_new 6).

Definition exFull : LightPipeline :=
  batchQuad exQuad (setNormalMapRotation hostCos hostSin 0%float exFresh).

(** A sprite whose texture has no normal map. *)
Definition exSprite : GameObject :=
  {| displayTexture := None; displayFrame := None;
     texture := Some {| dataSource := [] |};
     frame := Some {| sourceIndex := 0 |};
     tileset := None; rotation := 0%float |}.

(** ** Three claims as they are worded *)

(** C4 as the claim words it: of two calls in a row with the same angle the
    second is a no-op, so that at most one upload is made. *)
Definition second_call_is_noop (Math_cos Math_sin : number -> number)
  (a : number) (s : LightPipeline) : Prop :=
  let s1 := setNormalMapRotation Math_cos Math_sin a s in
  let s2 := setNormalMapRotation Math_cos Math_sin a s1 in
  s2 = s1
  /\ length (matrixUploads (calls (gl (super s2))))
     <= 1 + length (matrixUploads (calls (gl (super s)))).

(** C6 as the claim words it: when the active count goes from N to M across
    two consecutive syncs, every slot in [M, N) has radius 0 after the
    second sync.  A slot is an index below the capacity. *)
Definition slots_reset_on_decrease {T}
  (transformPoint : T -> number -> number -> Point -> Point)
  (lights1 : list Light) (ambient1 : Color) (camera1 : @Camera T)
  (lights2 : list Light) (ambient2 : Color) (camera2 : @Camera T)
  (s : LightPipeline) : Prop :=
  let N := length lights1 in
  let M := length lights2 in
  let s1 := (LightUniformSync transformPoint lights1 ambient1 camera1 s).1 in
  let s2 := (LightUniformSync transformPoint lights2 ambient2 camera2 s1).1 in
  M < N ->
  forall i, M <= i < N -> i < LIGHT_COUNT s ->
    uniforms (calls (gl (super s2)))
      !! (program (super s), "uLights[" +:+ pretty i +:+ "].radius")
    = Some [0%float].

(** C8 as the claim words it: a renderable from which no normal map is
    resolvable by any of the three paths gets the default texture, the one
    that [boot] created. *)
Definition falls_back_when_unresolvable
  (WebGLPipeline_boot : WebGLPipeline -> WebGLPipeline) (go : GameObject)
  (s : LightPipeline) : Prop :=
  viaDisplayTexture go = None ->
  viaTexture go = None ->
  viaTileset go = None ->
  getNormalMap (Some go) (boot WebGLPipeline_boot s)
  = Ok (created (gl (WebGLPipeline_boot (super s)))).

(** * Further observations *)

(** ** Statements and draws *)

(** A statement that changes inherited fields only. *)
Definition keeps_own (c : stmt) : Prop :=
  forall s, c s = set_super (super (c s)) s.

(** The number of vertices that a draw submits, and these numbers for the
    draws among a sequence of calls, oldest first. *)
Definition drawCount (c : GLCall) : option nat :=
  match c with
  | DrawArrays n _ => Some n
  | _ => None
  end.

Definition drawCounts (log : list GLCall) : list nat := omap drawCount log.

(** The cache of [setNormalMapRotation] is coherent: the stored matrix is the
    inverse rotation of some angle, and of the recorded angle when one is on
    record. *)
Definition coherent (Math_cos Math_sin : number -> number)
  (s : LightPipeline) : Prop :=
  (forall r, currentNormalMapRotation s = Some r ->
     inverseRotationMatrix s = inverseRotation Math_cos Math_sin r)
  /\ exists a, inverseRotationMatrix s = inverseRotation Math_cos Math_sin a.

(** ** Call histories without boot *)

Section Histories.

Context {TransformMatrix : Type}.
Variable transformPoint : TransformMatrix -> number -> number -> Point -> Point.
Variable cull : LightManager -> @Camera TransformMatrix -> list Light.
Variables Math_cos Math_sin : number -> number.

(** The objects that [s0] turns into under any number of calls of the
    methods other than [boot]; [since_super] stands for the inherited
    methods, as [reach_super] does, and [since_onRender] only adds
    histories, as [reach_onRender] does. *)
Inductive without_boot (s0 : LightPipeline) : LightPipeline -> Prop :=
| since_here :
    without_boot s0 s0
| since_super f s :
    without_boot s0 s -> without_boot s0 (on_super f s)
| since_batchVert x y lightX lightY radius r g b a s :
    without_boot s0 s ->
    without_boot s0 (batchVert x y lightX lightY radius r g b a s)
| since_batchLight light (camera : @Camera TransformMatrix)
    x0 y0 x1 y1 x2 y2 x3 y3 lightX lightY s :
    without_boot s0 s ->
    without_boot s0
      (batchLight light camera x0 y0 x1 y1 x2 y2 x3 y3 lightX lightY s)
| since_onBind s :
    without_boot s0 s -> without_boot s0 (onBind s)
| since_onRender scene camera s :
    without_boot s0 s ->
    without_boot s0 (onRender transformPoint cull scene camera s).1
| since_setNormalMapRotation rotation s :
    without_boot s0 s ->
    without_boot s0 (setNormalMapRotation Math_cos Math_sin rotation s).

End Histories.

(** ** More examples *)

(** A buffer too small for one quad. *)
Definition exSmall : LightPipeline := initialize 10 (WebGLPipeline_new 3).

(** A tile map layer whose tileset array is empty, and a sprite whose display
    texture has no normal map while its texture has one. *)
Definition exEmptyLayer : GameObject :=
  {| displayTexture := None; displayFrame := None;
     texture := None; frame := None;
     tileset := Some (TilesetArray []); rotation := 0%float |}.

Definition exShadowed : GameObject :=
  {| displayTexture := Some {| dataSource := [] |};
     displayFrame := Some {| sourceIndex := 0 |};
     texture := Some {| dataSource := [ {| glTexture := 7 |} ] |};
     frame := Some {| sourceIndex := 0 |};
     tileset := None; rotation := 0%float |}.

(** * Properties *)

(** ** Statements and the batch buffer *)

Lemma run_app (p q : list stmt) s : run (p ++ q) s = run q (run p s).
Proof. apply foldl_app. Qed.

Lemma run_cons (c : stmt) (p : list stmt) s : run (c :: p) s = run p (c s).
Proof. reflexivity. Qed.

Lemma on_super_compose f g s :
  on_super f (on_super g s) = on_super (fun b => f (g b)) s.
Proof. reflexivity. Qed.

Lemma on_super_id s : on_super (fun b => b) s = s.
Proof. by destruct s. Qed.

Lemma on_super_ext f g s :
  f (super s) = g (super s) -> on_super f s = on_super g s.
Proof. unfold on_super. by intros ->. Qed.

Lemma f32_set_nat arr (n : nat) v :
  f32_set arr (Z.of_nat n) v = <[n := fround v]> arr.
Proof.
  unfold f32_set. rewrite Nat2Z.id.
  by destruct (Z.leb_spec 0 (Z.of_nat n)); [|lia].
Qed.

Lemma take_stores k : forall i vs, take k (stores i vs) = stores i (take k vs).
Proof.
  induction k as [|k IH]; intros i [|v vs]; simpl; try done.
  by rewrite IH.
Qed.

Lemma run_stores vs : forall i s,
  run (stores i vs) s
  = on_super (fun b =>
      set_vertexViewF32
        (list_inserts i (fround <$> vs) (vertexViewF32 b)) b) s.
Proof.
  induction vs as [|v vs IH]; intros i s.
  - destruct s as [[] ?]; reflexivity.
  - simpl stores. rewrite run_cons, IH. unfold store.
    rewrite on_super_compose. apply on_super_ext. simpl.
    rewrite f32_set_nat.
    by rewrite list_insert_inserts_lt by lia.
Qed.

Lemma batchVert_body_stores (base : nat) x y lightX lightY radius r g b a :
  batchVert_body (Z.of_nat base - 1) x y lightX lightY radius r g b a
  = stores base [x; y; lightX; lightY; radius; r; g; b; a]
    ++ [incr_vertexCount].
Proof.
  unfold batchVert_body. simpl stores.
  replace (Z.of_nat base - 1 + 1)%Z with (Z.of_nat base) by lia.
  replace (Z.of_nat base - 1 + 2)%Z with (Z.of_nat (1 + base)) by lia.
  replace (Z.of_nat base - 1 + 3)%Z with (Z.of_nat (2 + base)) by lia.
  replace (Z.of_nat base - 1 + 4)%Z with (Z.of_nat (3 + base)) by lia.
  replace (Z.of_nat base - 1 + 5)%Z with (Z.of_nat (4 + base)) by lia.
  replace (Z.of_nat base - 1 + 6)%Z with (Z.of_nat (5 + base)) by lia.
  replace (Z.of_nat base - 1 + 7)%Z with (Z.of_nat (6 + base)) by lia.
  replace (Z.of_nat base - 1 + 8)%Z with (Z.of_nat (7 + base)) by lia.
  replace (Z.of_nat base - 1 + 9)%Z with (Z.of_nat (8 + base)) by lia.
  reflexivity.
Qed.

Lemma batchVert_unfold x y lightX lightY radius r g b a s :
  batchVert x y lightX lightY radius r g b a s
  = run (batchVert_body
           (Z.of_nat (vertexCount (super s) * vertexComponentCount (super s))
            - 1) x y lightX lightY radius r g b a) s.
Proof. unfold batchVert. by rewrite Nat2Z.inj_mul. Qed.

(** What one [batchVert] call does to the object as a whole. *)
Lemma batchVert_effect x y lightX lightY radius r g b a s :
  batchVert x y lightX lightY radius r g b a s
  = on_super (fun b0 =>
      set_vertexCount (S (vertexCount b0))
        (set_vertexViewF32
           (list_inserts (vertexCount b0 * vertexComponentCount b0)
              (fround <$> [x; y; lightX; lightY; radius; r; g; b; a])
              (vertexViewF32 b0)) b0)) s.
Proof.
  rewrite batchVert_unfold, batchVert_body_stores, run_app, run_stores.
  reflexivity.
Qed.

(** C9.  [batchVert] runs ten statements: nine stores that put x, y, lightX,
    lightY, radius, r, g, b, a (in that order, rounded to single precision)
    at the consecutive indices from [vertexCount * vertexComponentCount] on,
    then the increment of [vertexCount].  After any [k <= 9] of them the count
    is still the old one and exactly the first [k] fields are in place; after
    all ten the count is one more, the nine fields are in the buffer and every
    other index is as before. *)
Theorem batchVert_nine_fields_then_count x y lightX lightY radius r g b a s :
  let fields := [x; y; lightX; lightY; radius; r; g; b; a] in
  let base := vertexCount (super s) * vertexComponentCount (super s) in
  let body :=
    batchVert_body (Z.of_nat base - 1) x y lightX lightY radius r g b a in
  let s' := batchVert x y lightX lightY radius r g b a s in
  s' = run body s
  /\ body = stores base fields ++ [incr_vertexCount]
  /\ (forall k, k <= 9 ->
        vertexCount (super (run (take k body) s)) = vertexCount (super s)
        /\ vertexViewF32 (super (run (take k body) s))
           = list_inserts base (fround <$> take k fields)
               (vertexViewF32 (super s)))
  /\ vertexCount (super s') = S (vertexCount (super s))
  /\ vertexViewF32 (super s')
     = list_inserts base (fround <$> fields) (vertexViewF32 (super s))
  /\ (forall j, j < 9 -> base + j < length (vertexViewF32 (super s)) ->
        vertexViewF32 (super s') !! (base + j) = fround <$> fields !! j)
  /\ (forall j, j < base \/ base + 9 <= j ->
        vertexViewF32 (super s') !! j = vertexViewF32 (super s) !! j).
Proof.
  intros fields base body s'.
  assert (Hbody : body = stores base fields ++ [incr_vertexCount])
    by apply batchVert_body_stores.
  assert (Hs' : vertexViewF32 (super s')
                = list_inserts base (fround <$> fields)
                    (vertexViewF32 (super s)))
    by (subst s'; by rewrite batchVert_effect).
  split; [apply batchVert_unfold|]. split; [done|].
  split.
  { intros k Hk. rewrite Hbody, take_app_le by (simpl; lia).
    by rewrite take_stores, run_stores. }
  split; [subst s'; by rewrite batchVert_effect|].
  split; [done|]. split.
  - intros j Hj Hlen.
    rewrite Hs', list_lookup_inserts, list_lookup_fmap
      by (rewrite ?length_fmap; simpl; lia).
    do 2 f_equal. lia.
  - intros j Hj. rewrite Hs'. destruct Hj.
    + by apply list_lookup_inserts_lt.
    + apply list_lookup_inserts_ge. rewrite length_fmap. simpl. lia.
Qed.

(** ** batchLight *)

Lemma quadVertices_length {T} (q : LightQuad T) : length (quadVertices q) = 6.
Proof. reflexivity. Qed.

Lemma batchQuad_unfold {T} (q : LightQuad T) s :
  batchQuad q s
  = run (quadBody q) (if shouldFlush 6 s then flush s else s).
Proof.
  unfold batchQuad, batchLight, quadBody, quadVertices, quadCorners,
    lightFields.
  cbn [fmap list_fmap fst snd]. rewrite run_cons. reflexivity.
Qed.

Lemma appended_nil s : appended [] s = s.
Proof.
  unfold appended. rewrite <-(on_super_id s) at 2.
  apply on_super_ext. by destruct (super s).
Qed.

Lemma appended_app vs ws s :
  Forall (fun v => length v = 9) vs ->
  appended ws (appended vs s) = appended (vs ++ ws) s.
Proof.
  intros Hvs. unfold appended. rewrite on_super_compose.
  apply on_super_ext. simpl.
  assert (Hlen : length (fround <$> concat vs) = length vs * 9).
  { rewrite length_fmap. induction Hvs as [|v vs' Hv _ IH]; simpl; [done|].
    rewrite length_app, IH, Hv. lia. }
  rewrite concat_app, fmap_app, list_inserts_app_l, Hlen, length_app.
  unfold set_vertexCount, set_vertexViewF32; simpl.
  replace (length vs * 9 + vertexCount (super s) * 9)
    with ((length vs + vertexCount (super s)) * 9) by lia.
  f_equal. lia.
Qed.

Lemma batchVert_appended x y lightX lightY radius r g b a s :
  vertexComponentCount (super s) = 9 ->
  batchVert x y lightX lightY radius r g b a s
  = appended [[x; y; lightX; lightY; radius; r; g; b; a]] s.
Proof.
  intros Hvcc. rewrite batchVert_effect. unfold appended.
  apply on_super_ext. rewrite Hvcc. reflexivity.
Qed.

Lemma quadVertices_length9 {T} (q : LightQuad T) :
  Forall (fun v => length v = 9) (quadVertices q).
Proof. unfold quadVertices, quadCorners. by repeat constructor. Qed.

Lemma allVertices_length9 {T} (qs : list (LightQuad T)) :
  Forall (fun v => length v = 9) (allVertices qs).
Proof.
  unfold allVertices. induction qs as [|q qs IH]; [constructor|].
  rewrite fmap_cons, concat_cons.
  apply Forall_app. split; [apply quadVertices_length9|done].
Qed.

Lemma allVertices_length {T} (qs : list (LightQuad T)) :
  length (allVertices qs) = 6 * length qs.
Proof.
  unfold allVertices. induction qs as [|q qs IH]; [done|].
  rewrite fmap_cons, concat_cons, length_app, IH, quadVertices_length.
  simpl length. lia.
Qed.

(** Any prefix of the six vertex statements appends that prefix of the quad. *)
Lemma run_quadBody_take {T} (q : LightQuad T) k s :
  vertexComponentCount (super s) = 9 ->
  run (take k (quadBody q)) s = appended (take k (quadVertices q)) s.
Proof.
  intros Hvcc. unfold quadBody. rewrite <-fmap_take.
  assert (Hall : Forall (fun v => length v = 9) (take k (quadVertices q)))
    by apply Forall_take, quadVertices_length9.
  revert s Hvcc Hall. generalize (take k (quadVertices q)) as vs.
  induction vs as [|v vs IH]; intros s Hvcc Hall.
  - by rewrite appended_nil.
  - apply Forall_cons in Hall as [Hv Hall].
    rewrite fmap_cons, run_cons.
    do 10 (destruct v as [|? v]; try discriminate Hv).
    rewrite batchVert_appended by done.
    rewrite IH by done.
    by rewrite appended_app by (by repeat constructor).
Qed.

Lemma run_quadBody {T} (q : LightQuad T) s :
  vertexComponentCount (super s) = 9 ->
  run (quadBody q) s = appended (quadVertices q) s.
Proof.
  intros Hvcc. pose proof (run_quadBody_take q 6 s Hvcc) as H.
  rewrite !take_ge in H; [done|by rewrite quadVertices_length|].
  unfold quadBody. by rewrite length_fmap, quadVertices_length.
Qed.

Lemma shouldFlush_true n s :
  shouldFlush n s = true
  <-> vertexCapacity (super s) < vertexCount (super s) + n.
Proof. unfold shouldFlush. by rewrite bool_decide_eq_true. Qed.

Lemma shouldFlush_false n s :
  shouldFlush n s = false
  <-> vertexCount (super s) + n <= vertexCapacity (super s).
Proof. unfold shouldFlush. rewrite bool_decide_eq_false. lia. Qed.

Lemma concat_lookup_chunk {A} (k : nat) (vs : list (list A)) : forall m v t,
  Forall (fun v => length v = k) vs ->
  vs !! m = Some v -> t < k ->
  concat vs !! (m * k + t) = v !! t.
Proof.
  induction vs as [|w vs IH]; intros m v t Hall Hm Ht; [done|].
  apply Forall_cons in Hall as [Hw Hall]. destruct m as [|m]; simpl in *.
  - injection Hm as ->. by rewrite lookup_app_l by lia.
  - rewrite lookup_app_r by lia.
    replace (k + m * k + t - length w) with (m * k + t) by lia. by apply IH.
Qed.

Lemma length_concat_chunks {A} (k : nat) (vs : list (list A)) :
  Forall (fun v => length v = k) vs -> length (concat vs) = length vs * k.
Proof.
  induction 1 as [|v vs' Hv _ IH]; simpl; [done|].
  rewrite length_app, IH, Hv. lia.
Qed.

Lemma vertexAt_lookup s n t :
  vertexAt s n !! t
  = if decide (t < 9)
    then vertexViewF32 (super s) !! (n * vertexComponentCount (super s) + t)
    else None.
Proof.
  unfold vertexAt. case_decide.
  - by rewrite lookup_take_lt, lookup_drop by lia.
  - by rewrite lookup_take_ge by lia.
Qed.

(** The vertices appended to a batch with room for them can be read back at
    the indices that follow the old write cursor. *)
Lemma vertexAt_appended vs s m v :
  vertexComponentCount (super s) = 9 ->
  Forall (fun v => length v = 9) vs ->
  (vertexCount (super s) + length vs) * 9 <= length (vertexViewF32 (super s)) ->
  vs !! m = Some v ->
  vertexAt (appended vs s) (vertexCount (super s) + m) = fround <$> v.
Proof.
  intros Hvcc Hall Hroom Hm.
  assert (Hv : length v = 9).
  { rewrite Forall_forall in Hall. apply Hall.
    by eapply list_elem_of_lookup_2. }
  assert (Hmlt : m < length vs) by (by eapply lookup_lt_Some).
  pose proof (length_concat_chunks 9 vs Hall) as Hcat.
  apply list_eq. intros t. rewrite vertexAt_lookup, list_lookup_fmap.
  case_decide as Ht.
  - simpl. rewrite Hvcc.
    rewrite list_lookup_inserts by (rewrite ?length_fmap, ?Hcat; nia).
    rewrite list_lookup_fmap.
    replace ((vertexCount (super s) + m) * 9 + t - vertexCount (super s) * 9)
      with (m * 9 + t) by lia.
    by rewrite (concat_lookup_chunk 9 vs m v t).
  - by rewrite (lookup_ge_None_2 v t) by lia.
Qed.

Lemma vertexAt_appended_old vs s n :
  vertexComponentCount (super s) = 9 ->
  n < vertexCount (super s) ->
  vertexAt (appended vs s) n = vertexAt s n.
Proof.
  intros Hvcc Hn. apply list_eq. intros t. rewrite !vertexAt_lookup.
  case_decide; [|done]. simpl. rewrite Hvcc.
  by rewrite list_lookup_inserts_lt by nia.
Qed.

Lemma flushes_app l1 l2 : flushes (l1 ++ l2) = flushes l1 ++ flushes l2.
Proof. apply filter_app. Qed.


Lemma batchQuad_appended {T} (q : LightQuad T) s :
  vertexComponentCount (super s) = 9 ->
  batchQuad q s
  = appended (quadVertices q) (if shouldFlush 6 s then flush s else s).
Proof.
  intros Hvcc. rewrite batchQuad_unfold.
  apply run_quadBody. by destruct (shouldFlush 6 s).
Qed.

Lemma batchQuads_appended {T} (qs : list (LightQuad T)) : forall s,
  vertexComponentCount (super s) = 9 ->
  vertexCount (super s) + 6 * length qs <= vertexCapacity (super s) ->
  batchQuads qs s = appended (allVertices qs) s.
Proof.
  induction qs as [|q qs IH]; intros s Hvcc Hroom.
  - by rewrite appended_nil.
  - simpl in Hroom. unfold batchQuads. simpl foldl.
    fold (batchQuads qs (batchQuad q s)).
    rewrite batchQuad_appended by done.
    rewrite (proj2 (shouldFlush_false 6 s)) by lia.
    rewrite IH; [|done|simpl; lia].
    rewrite appended_app by apply quadVertices_length9.
    reflexivity.
Qed.

Lemma allVertices_lookup {T} (qs : list (LightQuad T)) : forall n q j,
  qs !! n = Some q -> j < 6 ->
  allVertices qs !! (6 * n + j) = quadVertices q !! j.
Proof.
  intros n q j Hn Hj. unfold allVertices.
  replace (6 * n + j) with (n * 6 + j) by lia.
  apply concat_lookup_chunk; [|by rewrite list_lookup_fmap, Hn|done].
  apply Forall_fmap, Forall_true. intros q'. apply quadVertices_length.
Qed.

(** C2.  A sequence of N [batchLight] calls that fits in the room left in the
    batch issues no call to the GPU at all, neither as a whole nor after any
    number of its calls (hence no flush), advances the vertex count by 6 N
    (to exactly 6 N from an empty batch) and leaves the
    vertices of the calls in the buffer in call order after the vertices that
    were already pending: call number [n] contributes the vertices
    [6 n .. 6 n + 5], which are its corners 0, 1, 2, 0, 2, 3, each followed by
    the same light fields. *)
Theorem batchLight_sequence_within_capacity {T} (qs : list (LightQuad T)) s :
  layout s ->
  vertexCount (super s) + 6 * length qs <= vertexCapacity (super s) ->
  let s' := batchQuads qs s in
  gl (super s') = gl (super s)
  /\ (forall k, gl (super (batchQuads (take k qs) s)) = gl (super s))
  /\ flushes (calls (gl (super s'))) = flushes (calls (gl (super s)))
  /\ vertexCount (super s') = vertexCount (super s) + 6 * length qs
  /\ (vertexCount (super s) = 0 -> vertexCount (super s') = 6 * length qs)
  /\ (forall n q j v,
        qs !! n = Some q -> quadVertices q !! j = Some v ->
        vertexAt s' (vertexCount (super s) + (6 * n + j)) = fround <$> v)
  /\ (forall q, q ∈ qs ->
        quadVertices q
        = (fun c => c.1 :: c.2 :: lightFields q)
            <$> [ (q_x0 q, q_y0 q); (q_x1 q, q_y1 q); (q_x2 q, q_y2 q);
                  (q_x0 q, q_y0 q); (q_x2 q, q_y2 q); (q_x3 q, q_y3 q) ])
  /\ (forall n, n < vertexCount (super s) -> vertexAt s' n = vertexAt s n).
Proof.
  intros [Hvcc Hlen] Hroom s'.
  assert (Hs' : s' = appended (allVertices qs) s)
    by (by apply batchQuads_appended).
  assert (Hcount : vertexCount (super s')
                   = vertexCount (super s) + 6 * length qs).
  { rewrite Hs'. simpl. rewrite allVertices_length. lia. }
  split; [by rewrite Hs'|]. split.
  { intros k. rewrite batchQuads_appended; [done..|].
    rewrite length_take. lia. }
  split; [by rewrite Hs'|].
  split; [done|]. split; [lia|]. split; [|split; [done|]].
  - intros n q j v Hn Hj. rewrite Hs'.
    assert (j < 6).
    { apply lookup_lt_Some in Hj. by rewrite quadVertices_length in Hj. }
    apply vertexAt_appended;
      [done|apply allVertices_length9| |].
    + rewrite allVertices_length, Hlen. lia.
    + by rewrite (allVertices_lookup qs n q j).
  - intros n Hn. rewrite Hs'. by apply vertexAt_appended_old.
Qed.

(** C3.  Whatever the corners, each of the six vertices that a [batchLight]
    call hands to [batchVert] carries r, g, b equal to the light's colour
    components times its intensity and alpha equal to the camera alpha times
    the light alpha; the six vertices are the last six of the batch after the
    call, where the Float32Array holds those products at single precision. *)
Theorem batchLight_premultiplied_colour {T} (q : LightQuad T) s :
  layout s ->
  6 <= vertexCapacity (super s) ->
  let L := q_light q in
  let C := q_camera q in
  let rgba :=
    [ (color_r (light_color L) * light_intensity L)%float;
      (color_g (light_color L) * light_intensity L)%float;
      (color_b (light_color L) * light_intensity L)%float;
      (camera_alpha C * light_alpha L)%float ] in
  let s' := batchQuad q s in
  s' = run (quadBody q) (if shouldFlush 6 s then flush s else s)
  /\ 6 <= vertexCount (super s')
  /\ forall j, j < 6 ->
       exists v,
         quadVertices q !! j = Some v
         /\ drop 5 v = rgba
         /\ vertexAt s' (vertexCount (super s') - 6 + j) = fround <$> v
         /\ drop 5 (vertexAt s' (vertexCount (super s') - 6 + j))
            = fround <$> rgba.
Proof.
  intros [Hvcc Hlen] Hcap L C rgba s'.
  set (s0 := if shouldFlush 6 s then flush s else s).
  assert (Hs' : s' = appended (quadVertices q) s0)
    by (by apply batchQuad_appended).
  assert (Hvcc0 : vertexComponentCount (super s0) = 9)
    by (subst s0; by destruct (shouldFlush 6 s)).
  assert (Hroom : (vertexCount (super s0) + 6) * 9
                  <= length (vertexViewF32 (super s0))).
  { subst s0. destruct (shouldFlush 6 s) eqn:Hf.
    - simpl. lia.
    - apply shouldFlush_false in Hf. lia. }
  assert (Hcount : vertexCount (super s') = 6 + vertexCount (super s0))
    by (by rewrite Hs').
  split; [apply batchQuad_unfold|].
  split; [lia|]. intros j Hj.
  destruct (quadVertices q !! j) as [v|] eqn:Hv.
  2: { apply lookup_ge_None in Hv. rewrite quadVertices_length in Hv. lia. }
  exists v. split; [done|].
  assert (Hdrop : drop 5 v = rgba).
  { do 6 (destruct j as [|j]; [by injection Hv as <-|]). lia. }
  assert (Hat : vertexAt s' (vertexCount (super s') - 6 + j) = fround <$> v).
  { replace (vertexCount (super s') - 6 + j)
      with (vertexCount (super s0) + j) by lia.
    rewrite Hs'. apply vertexAt_appended;
      [done|apply quadVertices_length9|by rewrite quadVertices_length|done]. }
  split; [done|]. split; [done|].
  rewrite Hat. rewrite <-Hdrop. symmetry. apply fmap_drop.
Qed.

(** ** setNormalMapRotation *)

Section Rotation.

Context {TransformMatrix : Type}.
Variable transformPoint : TransformMatrix -> number -> number -> Point -> Point.
Variable cull : LightManager -> @Camera TransformMatrix -> list Light.
Variable WebGLPipeline_boot : WebGLPipeline -> WebGLPipeline.
Variables Math_cos Math_sin : number -> number.
Local Abbreviation setRotation := (setNormalMapRotation Math_cos Math_sin).
Local Abbreviation reach :=
  (reachable transformPoint cull WebGLPipeline_boot Math_cos Math_sin).
Local Abbreviation render := (onRender transformPoint cull).

Lemma fround_0 : fround 0%float = 0%float.
Proof. reflexivity. Qed.

Lemma fround_1 : fround 1%float = 1%float.
Proof. reflexivity. Qed.

Lemma homogeneous_shape m :
  homogeneous m ->
  exists a b c d, m = [a; b; 0; c; d; 0; 0; 0; 1]%float.
Proof.
  intros (Hlen & H2 & H5 & H6 & H7 & H8).
  do 10 (destruct m as [|? m]; try discriminate Hlen).
  simpl in *. simplify_eq. eauto.
Qed.

Lemma inverseRotation_homogeneous rotation :
  homogeneous (inverseRotation Math_cos Math_sin rotation).
Proof. unfold inverseRotation. destruct (truthy rotation); by repeat split. Qed.

Lemma rotation_assign rotation s :
  homogeneous (inverseRotationMatrix s) ->
  (if truthy rotation then
     run [ set_matrix 1 (Math_sin (- rotation)%float);
           set_matrix 3 (- Math_sin (- rotation)%float)%float;
           set_matrix 4 (Math_cos (- rotation)%float);
           set_matrix 0 (Math_cos (- rotation)%float) ] s
   else
     run [ set_matrix 4 1%float; set_matrix 0 1%float;
           set_matrix 3 0%float; set_matrix 1 0%float ] s)
  = set_inverseRotationMatrix (inverseRotation Math_cos Math_sin rotation) s.
Proof.
  intros H. destruct (homogeneous_shape _ H) as (a & b & c & d & Hm).
  destruct s as [sup lc m dn cur n fz]. simpl in Hm. subst m.
  unfold inverseRotation. by destruct (truthy rotation).
Qed.

(** The call when the guard of line 388 holds. *)
Lemma setNormalMapRotation_upload rotation s :
  homogeneous (inverseRotationMatrix s) ->
  rotation_differs rotation (currentNormalMapRotation s)
  || bool_decide (vertexCount (super s) = 0) = true ->
  setRotation rotation s
  = set_currentNormalMapRotation (Some rotation)
      (call (SetMatrix3 (program (super s)) "uInverseRotationMatrix" false
               (inverseRotation Math_cos Math_sin rotation))
         (set_inverseRotationMatrix
            (inverseRotation Math_cos Math_sin rotation)
            (if bool_decide (0 < vertexCount (super s))
             then flush s else s))).
Proof.
  intros H Hguard. unfold setNormalMapRotation. rewrite Hguard.
  set (s0 := if bool_decide (0 < vertexCount (super s)) then flush s else s).
  assert (H0 : homogeneous (inverseRotationMatrix s0)).
  { subst s0. destruct (bool_decide (0 < vertexCount (super s))); exact H. }
  assert (Hp : program (super s0) = program (super s)).
  { subst s0. by destruct (bool_decide (0 < vertexCount (super s))). }
  cbv zeta. rewrite (rotation_assign rotation s0 H0). simpl.
  by rewrite Hp.
Qed.

(** The call when the guard fails: nothing happens. *)
Lemma setNormalMapRotation_skip rotation s :
  rotation_differs rotation (currentNormalMapRotation s)
  || bool_decide (vertexCount (super s) = 0) = false ->
  setRotation rotation s = s.
Proof. intros Hguard. unfold setNormalMapRotation. by rewrite Hguard. Qed.

Lemma run_keeps_matrix body :
  Forall keeps_matrix body -> keeps_matrix (run body).
Proof.
  induction 1 as [|c body Hc _ IH]; intros s; [done|].
  rewrite run_cons, IH. apply Hc.
Qed.

Lemma batchVert_keeps_matrix x y lightX lightY radius r g b a :
  keeps_matrix (batchVert x y lightX lightY radius r g b a).
Proof. intros s. by rewrite batchVert_effect. Qed.

Lemma batchLight_keeps_matrix light (camera : @Camera TransformMatrix)
  x0 y0 x1 y1 x2 y2 x3 y3 lightX lightY :
  keeps_matrix
    (batchLight light camera x0 y0 x1 y1 x2 y2 x3 y3 lightX lightY).
Proof.
  unfold batchLight. apply run_keeps_matrix.
  repeat (apply Forall_cons; split; [try apply batchVert_keeps_matrix|]);
    [|constructor].
  intros s. by destruct (shouldFlush 6 s).
Qed.

Lemma uploadLights_keeps_matrix camera : forall ls point i s,
  inverseRotationMatrix (uploadLights transformPoint camera point i ls s).1
  = inverseRotationMatrix s.
Proof.
  induction ls as [|light ls IH]; intros point i s; [done|].
  simpl. destruct (light_dirty light).
  - destruct (uploadLights _ _ _ _ ls _) as [s1 rest] eqn:E. simpl.
    change s1 with ((s1, rest).1). rewrite <-E, IH. reflexivity.
  - destruct (uploadLights _ _ _ _ ls _) as [s1 rest] eqn:E. simpl.
    change s1 with ((s1, rest).1). rewrite <-E, IH. reflexivity.
Qed.

Lemma onRender_keeps_matrix scene camera s :
  inverseRotationMatrix (render scene camera s).1 = inverseRotationMatrix s.
Proof.
  unfold onRender. destruct (sys_lights scene) as [lm|]; [|done].
  destruct (_ || _); [done|]. case_bool_decide; [done|].
  destruct (uploadLights _ _ _ _ _ _) as [s1 synced] eqn:E. simpl.
  change s1 with ((s1, synced).1). rewrite <-E, uploadLights_keeps_matrix.
  case_bool_decide; destruct (camera_dirty camera); simpl; try done;
    by rewrite (run_keeps_matrix (resetLights _))
      by (apply Forall_fmap, Forall_true; intros ??; done).
Qed.

Lemma reachable_homogeneous s :
  reach s -> homogeneous (inverseRotationMatrix s).
Proof.
  induction 1 as [maxLights base| | | | | | |rotation s _ IH].
  - by repeat split.
  - done.
  - done.
  - by rewrite batchVert_keeps_matrix.
  - by rewrite batchLight_keeps_matrix.
  - done.
  - by rewrite onRender_keeps_matrix.
  - destruct (rotation_differs rotation (currentNormalMapRotation s)
              || bool_decide (vertexCount (super s) = 0)) eqn:Hguard.
    + rewrite setNormalMapRotation_upload by done.
      apply inverseRotation_homogeneous.
    + by rewrite setNormalMapRotation_skip.
Qed.

(** C10.  After a [setNormalMapRotation] call on a pipeline with any call
    history, whatever the angle, the stored array has nine entries, those at
    indices 2, 5, 6 and 7 are 0 and the one at index 8 is 1; the call leaves
    every entry outside the top-left 2x2 block (indices 0, 1, 3, 4) as it
    was, and the matrix it uploads, if it uploads one, is the stored array. *)
Theorem setNormalMapRotation_keeps_homogeneous rotation s :
  reachable transformPoint cull WebGLPipeline_boot Math_cos Math_sin s ->
  let s' := setNormalMapRotation Math_cos Math_sin rotation s in
  let m := inverseRotationMatrix s in
  let m' := inverseRotationMatrix s' in
  length m' = 9
  /\ m' !! 2 = Some 0%float /\ m' !! 5 = Some 0%float
  /\ m' !! 6 = Some 0%float /\ m' !! 7 = Some 0%float
  /\ m' !! 8 = Some 1%float
  /\ (forall i, i ∉ [0; 1; 3; 4] -> m' !! i = m !! i)
  /\ (s' = s
      \/ exists pre,
           calls (gl (super s'))
           = pre ++ [SetMatrix3 (program (super s)) "uInverseRotationMatrix"
                       false m']).
Proof.
  intros Hreach s' m m'. pose proof (reachable_homogeneous s Hreach) as Hm.
  destruct (rotation_differs rotation (currentNormalMapRotation s)
            || bool_decide (vertexCount (super s) = 0)) eqn:Hguard.
  - assert (Hs' : m' = inverseRotation Math_cos Math_sin rotation).
    { subst m' s'. by rewrite setNormalMapRotation_upload. }
    pose proof (inverseRotation_homogeneous rotation) as H'.
    rewrite <-Hs' in H'. destruct H' as (?&?&?&?&?&?).
    repeat (split; [done|]). split.
    + intros i Hi. subst m.
      destruct (homogeneous_shape _ Hm) as (a & b & c & d & ->).
      rewrite Hs'. unfold inverseRotation.
      rewrite !not_elem_of_cons in Hi. destruct Hi as (?&?&?&?&_).
      do 9 (destruct i as [|i];
            [try lia; by destruct (truthy rotation)|]).
      by destruct (truthy rotation).
    + right. subst m' s'. rewrite setNormalMapRotation_upload by done.
      simpl. eauto.
  - assert (Hs' : s' = s) by (by apply setNormalMapRotation_skip).
    subst m'. rewrite Hs'. destruct Hm as (?&?&?&?&?&?).
    repeat match goal with |- _ /\ _ => split end; try done. by left.
Qed.

(** C5.  A call with an angle other than the last applied one while vertices
    are pending issues exactly two calls: the flush of the pending batch and
    then the upload of the stored matrix.  The uploaded array is
    [c, s, 0, -s, c, 0, 0, 0, 1] with c and s the host's cosine and sine of
    the negated angle (at single precision); the upload does not transpose,
    so the array is read column by column and the rows of the matrix are
    [[c, -s, 0], [s, c, 0], [0, 0, 1]], the rotation by the negated angle.
    It is the identity when the angle is zero.  From angle 0 to pi/2 with six
    vertices pending, on a host whose cosine and sine of -pi/2 are the
    doubles nearest to the exact values, the rows are within 2^-50 of
    [[0, 1, 0], [-1, 0, 0], [0, 0, 1]]. *)
Theorem setNormalMapRotation_flushes_then_uploads rotation s :
  reachable transformPoint cull WebGLPipeline_boot Math_cos Math_sin s ->
  rotation_differs rotation (currentNormalMapRotation s) = true ->
  0 < vertexCount (super s) ->
  let s' := setNormalMapRotation Math_cos Math_sin rotation s in
  let c := Math_cos (- rotation)%float in
  let sn := Math_sin (- rotation)%float in
  let M := inverseRotationMatrix s' in
  calls (gl (super s'))
  = calls (gl (super s))
    ++ [ DrawArrays (vertexCount (super s))
           (take (vertexCount (super s) * vertexComponentCount (super s))
              (vertexViewF32 (super s)));
         SetMatrix3 (program (super s)) "uInverseRotationMatrix" false M ]
  /\ length (flushes (calls (gl (super s'))))
     = S (length (flushes (calls (gl (super s)))))
  /\ vertexCount (super s') = 0
  /\ currentNormalMapRotation s' = Some rotation
  /\ (truthy rotation = true ->
      M = [ fround c; fround sn; 0;
            fround (- sn); fround c; 0;
            0; 0; 1 ]%float
      /\ rows M = [ [fround c; fround (- sn); 0];
                    [fround sn; fround c; 0];
                    [0; 0; 1] ]%float)
  /\ ((rotation =? 0)%float = true ->
      M = [ 1; 0; 0; 0; 1; 0; 0; 0; 1 ]%float
      /\ rows M = [ [1; 0; 0]; [0; 1; 0]; [0; 0; 1] ]%float)
  /\ (currentNormalMapRotation s = Some 0%float ->
      vertexCount (super s) = 6 ->
      rotation = halfPi ->
      Math_cos (- halfPi)%float = 0x1.1a62633145c07p-54%float ->
      Math_sin (- halfPi)%float = (-1)%float ->
      M = [ 0x1.1a6264p-54; -1; 0; 1; 0x1.1a6264p-54; 0; 0; 0; 1 ]%float
      /\ rows M = [ [0x1.1a6264p-54; 1; 0];
                 [-1; 0x1.1a6264p-54; 0];
                 [0; 0; 1] ]%float
      /\ close 0x1p-50%float (concat (rows M))
           [0; 1; 0; -1; 0; 0; 0; 0; 1]%float = true).
Proof.
  intros Hreach Hdiff Hpending s' c sn M.
  pose proof (reachable_homogeneous s Hreach) as Hm.
  assert (Hs' : s' = set_currentNormalMapRotation (Some rotation)
            (call (SetMatrix3 (program (super s)) "uInverseRotationMatrix"
                     false (inverseRotation Math_cos Math_sin rotation))
               (set_inverseRotationMatrix
                  (inverseRotation Math_cos Math_sin rotation) (flush s)))).
  { subst s'. rewrite setNormalMapRotation_upload by (by rewrite ?Hdiff).
    by rewrite bool_decide_eq_true_2 by done. }
  assert (HM : M = inverseRotation Math_cos Math_sin rotation)
    by (subst M; by rewrite Hs').
  split. { rewrite HM, Hs'. simpl. by rewrite <-app_assoc. }
  split. { rewrite Hs'. simpl. rewrite !flushes_app, !length_app. simpl. lia. }
  split; [by rewrite Hs'|]. split; [by rewrite Hs'|].
  split. { intros Ht. rewrite HM. unfold inverseRotation. by rewrite Ht. }
  split.
  { intros H0. rewrite HM. unfold inverseRotation, truthy. by rewrite H0. }
  intros _ _ -> Hcos Hsin. rewrite HM. unfold inverseRotation.
  rewrite Hcos, Hsin. by vm_compute.
Qed.

(** C4, as amended.  A call with the last applied angle while vertices are
    pending does nothing, and neither does a second such call.  In every
    other state the first call empties the batch and uploads, so a second
    call with the same angle, with nothing batched in between, passes the
    guard of line 388 again and uploads the same matrix a second time,
    without a flush: two uploads in total. *)
Theorem setNormalMapRotation_twice rotation s :
  reachable transformPoint cull WebGLPipeline_boot Math_cos Math_sin s ->
  let s1 := setNormalMapRotation Math_cos Math_sin rotation s in
  let s2 := setNormalMapRotation Math_cos Math_sin rotation s1 in
  let M := inverseRotation Math_cos Math_sin rotation in
  let up := SetMatrix3 (program (super s)) "uInverseRotationMatrix" false M in
  (rotation_differs rotation (currentNormalMapRotation s) = false
   /\ 0 < vertexCount (super s) ->
   s1 = s /\ s2 = s)
  /\ (rotation_differs rotation (currentNormalMapRotation s) = true
      \/ vertexCount (super s) = 0 ->
      vertexCount (super s1) = 0
      /\ matrixUploads (calls (gl (super s1)))
         = matrixUploads (calls (gl (super s))) ++ [up]
      /\ calls (gl (super s2)) = calls (gl (super s1)) ++ [up]
      /\ length (matrixUploads (calls (gl (super s2))))
         = 2 + length (matrixUploads (calls (gl (super s))))).
Proof.
  intros Hreach s1 s2 M up. split.
  - intros [Hsame Hpending].
    assert (Hs1 : s1 = s).
    { apply setNormalMapRotation_skip. rewrite Hsame.
      by rewrite bool_decide_eq_false_2 by lia. }
    split; [done|]. subst s2. by rewrite Hs1.
  - intros Hfirst.
    pose proof (reachable_homogeneous s Hreach) as Hm.
    assert (Hguard : rotation_differs rotation (currentNormalMapRotation s)
                     || bool_decide (vertexCount (super s) = 0) = true).
    { destruct Hfirst as [->| ->]; [done|]. by rewrite orb_true_r. }
    assert (Hs1 : s1 = set_currentNormalMapRotation (Some rotation)
              (call up (set_inverseRotationMatrix M
                 (if bool_decide (0 < vertexCount (super s))
                  then flush s else s))))
      by (by apply setNormalMapRotation_upload).
    assert (Hcount : vertexCount (super s1) = 0).
    { rewrite Hs1. case_bool_decide; simpl; lia. }
    assert (Hup1 : matrixUploads (calls (gl (super s1)))
                   = matrixUploads (calls (gl (super s))) ++ [up]).
    { rewrite Hs1. unfold matrixUploads.
      case_bool_decide; simpl; rewrite !filter_app; simpl;
        by rewrite ?app_nil_r. }
    assert (Hs2 : s2 = set_currentNormalMapRotation (Some rotation)
              (call up (set_inverseRotationMatrix M s1))).
    { assert (Hp : program (super s1) = program (super s)).
      { rewrite Hs1. by destruct (bool_decide (0 < vertexCount (super s))). }
      subst s2. rewrite setNormalMapRotation_upload.
      - rewrite Hcount, Hp. by rewrite bool_decide_eq_false_2 by lia.
      - rewrite Hs1. apply inverseRotation_homogeneous.
      - rewrite Hcount. apply orb_true_r. }
    split; [done|]. split; [done|].
    split; [by rewrite Hs2|].
    rewrite Hs2. simpl. unfold matrixUploads in *.
    rewrite filter_app, Hup1, !length_app. simpl. lia.
Qed.

End Rotation.

(** ** Uniform names *)

Lemma append_assoc (s1 s2 s3 : string) :
  (s1 +:+ s2) +:+ s3 = s1 +:+ (s2 +:+ s3).
Proof.
  induction s1 as [|c s1 IH]; [done|].
  change (String c ((s1 +:+ s2) +:+ s3) = String c (s1 +:+ (s2 +:+ s3))).
  by rewrite IH.
Qed.

Lemma pretty_N_go_no_bracket x : forall s,
  no_bracket s -> no_bracket (pretty_N_go x s).
Proof.
  induction (N.lt_wf_0 x) as [x _ IH]; intros s Hs.
  assert (x = 0 \/ 0 < x)%N as [->|Hx] by lia.
  - by rewrite pretty_N_go_0.
  - rewrite pretty_N_go_step by done. apply IH.
    + by apply N.div_lt.
    + split; [|done]. unfold pretty_N_char. by repeat case_match.
Qed.

Lemma pretty_nat_no_bracket (i : nat) : no_bracket (pretty i).
Proof.
  unfold pretty, pretty_nat, pretty, pretty_N. case_decide.
  - by split.
  - by apply pretty_N_go_no_bracket.
Qed.

(** Two strings that agree up to and beyond their first closing bracket. *)
Lemma bracket_split d1 : forall d2 r1 r2,
  no_bracket d1 -> no_bracket d2 ->
  d1 +:+ String "]" r1 = d2 +:+ String "]" r2 ->
  d1 = d2 /\ r1 = r2.
Proof.
  induction d1 as [|c d1 IH]; intros [|c' d2] r1 r2 H1 H2 Heq;
    cbv [String.append] in Heq; fold String.append in Heq.
  - by injection Heq.
  - injection Heq as <- _. by destruct H2.
  - injection Heq as -> _. by destruct H1.
  - injection Heq as -> Heq. destruct H1, H2.
    destruct (IH d2 r1 r2) as [-> ->]; done.
Qed.

(** ['uLights[' + i + '].' + field] determines both [i] and [field]. *)
Lemma lightName_inj i j f g :
  lightName i +:+ f = lightName j +:+ g -> i = j /\ f = g.
Proof.
  unfold lightName. rewrite !append_assoc. intros Heq.
  apply (inj (String.append "uLights[")) in Heq.
  change ("]." +:+ f) with (String "]" ("." +:+ f)) in Heq.
  change ("]." +:+ g) with (String "]" ("." +:+ g)) in Heq.
  apply bracket_split in Heq as [Hij Hfg];
    [|apply pretty_nat_no_bracket..].
  split; [by apply (inj pretty)|].
  by apply (inj (String.append ".")) in Hfg.
Qed.

Lemma radiusName i :
  "uLights[" +:+ pretty i +:+ "].radius" = lightName i +:+ "radius".
Proof. unfold lightName. by rewrite !append_assoc. Qed.

Lemma lightName_not_uCamera i f : lightName i +:+ f <> "uCamera".
Proof.
  unfold lightName. rewrite !append_assoc.
  cbv [String.append]; fold String.append. discriminate.
Qed.

Lemma lightName_not_uAmbient i f : lightName i +:+ f <> "uAmbientLightColor".
Proof.
  unfold lightName. rewrite !append_assoc.
  cbv [String.append]; fold String.append. discriminate.
Qed.

(** ** The uniform table *)

Lemma uniforms_snoc log c : uniforms (log ++ [c]) = upload (uniforms log) c.
Proof. unfold uniforms. by rewrite foldl_app. Qed.

Lemma uniforms_app_untouched k log : forall more,
  Forall (fun c => key_of c <> Some k) more ->
  uniforms (log ++ more) !! k = uniforms log !! k.
Proof.
  intros more. induction more as [|c more IH] using rev_ind; intros Hall.
  - by rewrite app_nil_r.
  - apply Forall_app in Hall as [Hmore Hc]. rewrite Forall_singleton in Hc.
    rewrite app_assoc, uniforms_snoc. unfold upload, key_of in *.
    destruct (uniform_of c) as [[[p n] v]|]; simpl in *; [|by apply IH].
    rewrite lookup_insert_ne by (intros Hk; apply Hc; by rewrite Hk).
    by apply IH.
Qed.

Lemma uniforms_snoc_eq log c p n v :
  uniform_of c = Some (p, n, v) -> uniforms (log ++ [c]) !! (p, n) = Some v.
Proof.
  intros Hc. rewrite uniforms_snoc. unfold upload. rewrite Hc.
  apply lookup_insert_eq.
Qed.

(** ** The uniform sync *)

(** The theorems of this part are about [LightUniformSync], the model of the
    sync that the spec describes.  The class has no such method, so they say
    what the spec's sync does, not what the program does. *)

Section Render.

Context {TransformMatrix : Type}.
Variable transformPoint : TransformMatrix -> number -> number -> Point -> Point.
Local Abbreviation sync := (LightUniformSync transformPoint).

Lemma emits_nil s : emits [] s = s.
Proof.
  unfold emits. rewrite <-(on_super_id s) at 2. apply on_super_ext.
  destruct (super s) as [[] ]; simpl. by rewrite app_nil_r.
Qed.

Lemma emits_emits cs1 cs2 s : emits cs2 (emits cs1 s) = emits (cs1 ++ cs2) s.
Proof.
  unfold emits. rewrite on_super_compose. apply on_super_ext.
  simpl. by rewrite app_assoc.
Qed.

Lemma call_emits c s : call c s = emits [c] s.
Proof. reflexivity. Qed.

Lemma run_calls cs : forall s, run (call <$> cs) s = emits cs s.
Proof.
  induction cs as [|c cs IH]; intros s; [by rewrite emits_nil|].
  rewrite fmap_cons, run_cons, IH, call_emits, emits_emits. reflexivity.
Qed.

Lemma uploadLights_emits camera : forall ls point i s,
  (uploadLights transformPoint camera point i ls s).1
  = emits (uploadCalls transformPoint (program (super s))
             (renderer_height (super s))
             camera point i ls) s.
Proof.
  induction ls as [|light ls IH]; intros point i s.
  - by rewrite emits_nil.
  - simpl. unfold dirtyCalls. destruct (light_dirty light).
    + destruct (uploadLights _ _ _ _ ls _) as [s1 rest] eqn:E. simpl.
      change s1 with ((s1, rest).1). rewrite <-E, IH.
      unfold run. simpl foldl. rewrite !call_emits, !emits_emits.
      reflexivity.
    + destruct (uploadLights _ _ _ _ ls _) as [s1 rest] eqn:E. simpl.
      change s1 with ((s1, rest).1). rewrite <-E, IH.
      rewrite !call_emits, !emits_emits. reflexivity.
Qed.

Lemma resetLights_calls s :
  resetLights s = call <$> resetCalls (program (super s)) (LIGHT_COUNT s).
Proof. unfold resetLights, resetCalls. by rewrite <-list_fmap_compose. Qed.

Lemma fst_let_pair {A B C D} (p : A * B) (f : A -> C) (g : B -> D) :
  (let (a, b) := p in (f a, g b)).1 = f p.1.
Proof. by destruct p. Qed.

(** What a sync of at least one light leaves behind. *)
Lemma LightUniformSync_calls activeLights ambient camera s :
  activeLights <> [] ->
  let s' := (sync activeLights ambient camera s).1 in
  calls (gl (super s'))
  = calls (gl (super s))
    ++ syncCalls transformPoint activeLights ambient camera s
  /\ lightCount s' = length activeLights
  /\ program (super s') = program (super s)
  /\ renderer_height (super s') = renderer_height (super s)
  /\ LIGHT_COUNT s' = LIGHT_COUNT s.
Proof.
  intros Hne. unfold LightUniformSync, syncCalls, uploadsOfSync.
  destruct activeLights as [|l ls]; [done|].
  set (ls' := l :: ls). cbv zeta.
  rewrite uploadLights_emits, resetLights_calls, run_calls.
  destruct (decide (length ls' = lightCount s)) as [Hcount|Hcount];
    [rewrite !bool_decide_eq_false_2 by (by intros ?)
    |rewrite !bool_decide_eq_true_2 by done];
    destruct (camera_dirty camera); simpl;
    rewrite <-?app_assoc; simpl; repeat split; done.
Qed.

Lemma key_eq_name (p : nat) (n1 n2 : string) :
  Some (p, n1) = Some (p, n2) -> n1 = n2.
Proof. congruence. Qed.

(** Every call of the second loop is on a field of a slot it iterates over. *)
Lemma uploadCalls_keys p h camera : forall ls point i,
  Forall (fun c => exists j f,
            i <= j < i + length ls
            /\ key_of c = Some (p, lightName j +:+ f))
    (uploadCalls transformPoint p h camera point i ls).
Proof.
  induction ls as [|light ls IH]; intros point i; [constructor|].
  simpl. constructor; [exists i, "position"; split; [lia|done]|].
  apply Forall_app. split.
  - unfold dirtyCalls. destruct (light_dirty light); [|constructor].
    repeat constructor;
      [exists i, "color"|exists i, "intensity"|exists i, "radius"];
      (split; [lia|done]).
  - eapply Forall_impl; [apply (IH _ (S i))|].
    intros c (j & f & Hj & Hc). exists j, f. split; [lia|done].
Qed.

Lemma uploadCalls_untouched p h camera ls point i j f :
  j < i \/ i + length ls <= j ->
  Forall (fun c => key_of c <> Some (p, lightName j +:+ f))
    (uploadCalls transformPoint p h camera point i ls).
Proof.
  intros Hj. eapply Forall_impl; [apply uploadCalls_keys|].
  intros c (j' & f' & Hj' & ->) Heq. apply key_eq_name in Heq.
  apply lightName_inj in Heq as [-> _]. lia.
Qed.

Lemma dirtyCalls_not_position p i light j :
  Forall (fun c => key_of c <> Some (p, lightName j +:+ "position"))
    (dirtyCalls p i light).
Proof.
  unfold dirtyCalls. destruct (light_dirty light); repeat constructor;
    intros Heq; apply key_eq_name in Heq;
    by apply lightName_inj in Heq as [_ ?].
Qed.

(** The position of slot [i + k] after the second loop. *)
Lemma uploadCalls_position p h camera : forall ls point i k pre light,
  ls !! k = Some light ->
  let point' :=
    transformPoint (camera_matrix camera) (light_x light) (light_y light)
      (pointBefore transformPoint camera point ls k) in
  positionCall p h camera (i + k) light point'
    ∈ uploadCalls transformPoint p h camera point i ls
  /\ uniforms (pre ++ uploadCalls transformPoint p h camera point i ls)
       !! (p, lightName (i + k) +:+ "position")
     = Some [ (point_x point'
               - (camera_scrollX camera * light_scrollFactorX light
                  * camera_zoom camera))%float;
              (h
               - (point_y point'
                  - (camera_scrollY camera * light_scrollFactorY light)
                    * camera_zoom camera))%float ].
Proof.
  induction ls as [|l ls IH]; intros point i k pre light Hk; [done|].
  destruct k as [|k]; cbn [lookup list_lookup] in Hk.
  - injection Hk as ->. rewrite Nat.add_0_r.
    cbn [uploadCalls pointBefore]. split; [left|].
    rewrite cons_middle, app_assoc.
    rewrite uniforms_app_untouched.
    + by apply uniforms_snoc_eq.
    + apply Forall_app. split; [apply dirtyCalls_not_position|].
      apply uploadCalls_untouched. lia.
  - replace (i + S k) with (S i + k) by lia.
    cbn [uploadCalls pointBefore].
    destruct (IH (transformPoint (camera_matrix camera) (light_x l)
                    (light_y l) point) (S i) k
                 (pre ++ positionCall p h camera i l
                           (transformPoint (camera_matrix camera) (light_x l)
                              (light_y l) point)
                         :: dirtyCalls p i l) light Hk) as [Hin Hlookup].
    split.
    + right. apply elem_of_app. by right.
    + rewrite app_comm_cons, app_assoc. exact Hlookup.
Qed.

(** After the first loop every slot below [count] has radius 0. *)
Lemma resetCalls_lookup p count pre i :
  i < count ->
  uniforms (pre ++ resetCalls p count)
    !! (p, "uLights[" +:+ pretty i +:+ "].radius")
  = Some [0%float].
Proof.
  intros Hi. unfold resetCalls.
  replace count with (i + (1 + (count - S i))) by lia.
  rewrite !seq_app, !fmap_app, !app_assoc. simpl seq at 2.
  rewrite uniforms_app_untouched.
  - by apply uniforms_snoc_eq.
  - apply Forall_fmap, Forall_forall. intros j Hj Heq.
    apply key_eq_name in Heq.
    apply elem_of_seq in Hj. rewrite !radiusName in Heq.
    apply lightName_inj in Heq as [-> _]. lia.
Qed.

Lemma uploadsOfSync_untouched activeLights ambient camera s j f :
  length activeLights <= j ->
  Forall (fun c => key_of c <> Some (program (super s), lightName j +:+ f))
    (uploadsOfSync transformPoint activeLights ambient camera s).
Proof.
  intros Hj. unfold uploadsOfSync. rewrite !Forall_app. split; [|split].
  - destruct (camera_dirty camera); repeat constructor.
    intros Heq. apply key_eq_name in Heq. symmetry in Heq.
    by apply lightName_not_uCamera in Heq.
  - repeat constructor.
    intros Heq. apply key_eq_name in Heq. symmetry in Heq.
    by apply lightName_not_uAmbient in Heq.
  - apply uploadCalls_untouched. right. lia.
Qed.



End Render.

(** ** getNormalMap and boot *)

Section Boot.

Variable WebGLPipeline_boot : WebGLPipeline -> WebGLPipeline.

(** The state that [boot] leaves, field by field. *)
Lemma boot_effect s :
  let g := gl (WebGLPipeline_boot (super s)) in
  let h := created g in
  let s' := boot WebGLPipeline_boot s in
  defaultNormalMap s' = Some {| glTexture := h |}
  /\ textures (gl (super s'))
     = <[h := {| tex_width := 1; tex_height := 1;
                 tex_pixels := [127; 127; 255; 255]%N |}]> (textures g)
  /\ created (gl (super s')) = S h
  /\ calls (gl (super s'))
     = calls g
       ++ [ CreateTexture h; ActiveTexture 0; BindTexture h;
            TexImage2D h {| tex_width := 1; tex_height := 1;
                            tex_pixels := [127; 127; 255; 255]%N |} ].
Proof.
  intros g h s'. subst s'. unfold boot. simpl.
  unfold texImage2D. simpl. rewrite lookup_insert_eq. simpl.
  repeat split; try done. by rewrite <-!app_assoc.
Qed.


End Boot.

(** ** The examples, checked *)

(** [Math.fround(0.1)] is 0.10000000149011612, a value beyond the binary32
    range becomes infinite, and a tie goes to the even neighbour. *)
Example fround_tenth : fround 0x1.999999999999ap-4%float = 0x1.99999ap-4%float.
Proof. reflexivity. Qed.

Example fround_huge : fround 0x1p+128%float = infinity.
Proof. reflexivity. Qed.

Example fround_tie : fround 16777217%float = 16777216%float.
Proof. reflexivity. Qed.

Example truthy_numbers :
  truthy 0%float = false /\ truthy (-0)%float = false
  /\ truthy nan = false /\ truthy halfPi = true.
Proof. by repeat split. Qed.

(** One vertex into the fresh buffer: nine floats from index 0, count 1. *)
Example batchVert_first_vertex :
  let s := (batchVert 1 2 3 4 5 6 7 8 9)%float exFresh in
  take 10 (vertexViewF32 (super s)) = [1; 2; 3; 4; 5; 6; 7; 8; 9; 0]%float
  /\ vertexCount (super s) = 1.
Proof. by split. Qed.

(** The first call with angle 0 on a fresh pipeline uploads the identity and
    leaves no draw behind. *)
Example setNormalMapRotation_first_call :
  calls (gl (super (setNormalMapRotation hostCos hostSin 0%float exFresh)))
  = [ SetMatrix3 1 "uInverseRotationMatrix" false
        [1; 0; 0; 0; 1; 0; 0; 0; 1]%float ].
Proof. reflexivity. Qed.

Lemma exFull_reachable :
  reachable exTransformPoint exCull exBoot hostCos hostSin exFull.
Proof.
  unfold exFull, batchQuad. apply reach_batchLight.
  apply reach_setNormalMapRotation. apply reach_initialize.
Qed.


(** Two quads into an empty buffer of twelve vertices. *)
Lemma batchLight_sequence_within_capacity_witness :
  let s := initialize 10 (WebGLPipeline_new 12) in
  layout s
  /\ vertexCount (super s) + 6 * length [exQuad; exQuad]
     <= vertexCapacity (super s)
  /\ vertexCount (super (batchQuads [exQuad; exQuad] s)) = 12.
Proof.
  intros s.
  assert (H1 : layout s) by (split; reflexivity).
  assert (H2 : vertexCount (super s) + 6 * length [exQuad; exQuad]
               <= vertexCapacity (super s)) by (vm_compute; lia).
  pose proof (batchLight_sequence_within_capacity [exQuad; exQuad] s H1 H2)
    as H.
  exact (conj H1 (conj H2 (proj1 (proj2 (proj2 (proj2 H)))))).
Defined.

(** Light colour (1, 0.5, 0.25) at intensity 2, light alpha 0.5 under camera
    alpha 0.5. *)
Lemma batchLight_premultiplied_colour_witness :
  layout exFresh
  /\ 6 <= vertexCapacity (super exFresh)
  /\ drop 5 (vertexAt (batchQuad exQuad exFresh) 0)
     = [2; 1; 0.5; 0.25]%float.
Proof.
  assert (H1 : layout exFresh) by (split; reflexivity).
  assert (H2 : 6 <= vertexCapacity (super exFresh)) by (vm_compute; lia).
  destruct (batchLight_premultiplied_colour exQuad exFresh H1 H2)
    as (_ & _ & H).
  destruct (H 0 ltac:(lia)) as (v & _ & _ & _ & Hv).
  exact (conj H1 (conj H2 Hv)).
Defined.

(** From angle 0 to pi/2 with one quad pending. *)
Lemma setNormalMapRotation_flushes_then_uploads_witness :
  reachable exTransformPoint exCull exBoot hostCos hostSin exFull
  /\ rotation_differs halfPi (currentNormalMapRotation exFull) = true
  /\ 0 < vertexCount (super exFull)
  /\ close 0x1p-50%float
       (concat (rows (inverseRotationMatrix
                        (setNormalMapRotation hostCos hostSin halfPi exFull))))
       [0; 1; 0; -1; 0; 0; 0; 0; 1]%float = true.
Proof.
  assert (H1 := exFull_reachable).
  assert (H2 : rotation_differs halfPi (currentNormalMapRotation exFull)
               = true) by reflexivity.
  assert (H3 : 0 < vertexCount (super exFull)) by (vm_compute; lia).
  pose proof (setNormalMapRotation_flushes_then_uploads exTransformPoint
                exCull exBoot hostCos hostSin halfPi exFull H1 H2 H3) as H.
  destruct H as (_ & _ & _ & _ & _ & _ & H).
  destruct (H eq_refl eq_refl eq_refl eq_refl eq_refl) as (_ & _ & Hclose).
  exact (conj H1 (conj H2 (conj H3 Hclose))).
Defined.

Lemma setNormalMapRotation_keeps_homogeneous_witness :
  reachable exTransformPoint exCull exBoot hostCos hostSin exFull
  /\ inverseRotationMatrix (setNormalMapRotation hostCos hostSin halfPi exFull)
     !! 8 = Some 1%float.
Proof.
  assert (H1 := exFull_reachable).
  pose proof (setNormalMapRotation_keeps_homogeneous exTransformPoint exCull
                exBoot hostCos hostSin halfPi exFull H1) as H.
  exact (conj H1 (proj1 (proj2 (proj2 (proj2 (proj2 (proj2 H))))))).
Defined.

(** Two calls with angle 0 on a fresh pipeline: two uploads. *)
Lemma setNormalMapRotation_twice_witness :
  reachable exTransformPoint exCull exBoot hostCos hostSin exFresh
  /\ length (matrixUploads (calls (gl (super
       (setNormalMapRotation hostCos hostSin 0%float
          (setNormalMapRotation hostCos hostSin 0%float exFresh))))))
     = 2 + length (matrixUploads (calls (gl (super exFresh)))).
Proof.
  assert (H1 : reachable exTransformPoint exCull exBoot hostCos hostSin
                 exFresh) by apply reach_initialize.
  pose proof (setNormalMapRotation_twice exTransformPoint exCull exBoot
                hostCos hostSin 0%float exFresh H1) as [_ H].
  destruct (H (or_intror eq_refl)) as (_ & _ & _ & H2).
  exact (conj H1 H2).
Defined.

(** C4, counterexample: on a fresh pipeline the second of two calls with
    angle 0 uploads again. *)
Lemma setNormalMapRotation_second_call_uploads :
  ~ second_call_is_noop hostCos hostSin 0%float exFresh.
Proof.
  unfold second_call_is_noop. intros [_ H]. vm_compute in H. lia.
Qed.






(** * Further properties *)

(** ** The batch buffer at its bounds *)

Lemma list_inserts_beyond {A} (i : nat) (k l : list A) :
  length l <= i -> list_inserts i k l = l.
Proof.
  intros Hi. apply list_eq. intros j.
  destruct (decide (j < i)) as [Hj|Hj].
  - by apply list_lookup_inserts_lt.
  - rewrite (lookup_ge_None_2 l j) by lia.
    apply lookup_ge_None_2. rewrite length_inserts. lia.
Qed.


(** ** batchLight without the layout assumption *)

(** The count, the calls and the fields that one [batchLight] call leaves,
    for any buffer and any vertex size. *)
Lemma batchQuad_frame {T} (q : LightQuad T) s :
  vertexCount (super (batchQuad q s))
  = 6 + vertexCount (super (if shouldFlush 6 s then flush s else s))
  /\ gl (super (batchQuad q s))
     = gl (super (if shouldFlush 6 s then flush s else s))
  /\ vertexCapacity (super (batchQuad q s)) = vertexCapacity (super s)
  /\ vertexComponentCount (super (batchQuad q s))
     = vertexComponentCount (super s)
  /\ length (vertexViewF32 (super (batchQuad q s)))
     = length (vertexViewF32 (super s))
  /\ batchQuad q s = set_super (super (batchQuad q s)) s.
Proof.
  rewrite batchQuad_unfold.
  unfold quadBody, quadVertices, quadCorners, lightFields.
  cbn [fmap list_fmap fst snd]. rewrite !run_cons, !batchVert_effect.
  unfold run. cbn [foldl].
  cbn [super on_super set_super vertexCount vertexViewF32 set_vertexCount
         set_vertexViewF32 gl vertexCapacity vertexComponentCount].
  rewrite !length_inserts.
  destruct (shouldFlush 6 s); repeat split; try done; by destruct s.
Qed.

Lemma vertexAt_appended_fits vs s m v :
  vertexComponentCount (super s) = 9 ->
  Forall (fun v => length v = 9) vs ->
  vs !! m = Some v ->
  (vertexCount (super s) + m + 1) * 9 <= length (vertexViewF32 (super s)) ->
  vertexAt (appended vs s) (vertexCount (super s) + m) = fround <$> v.
Proof.
  intros Hvcc Hall Hm Hroom.
  assert (Hv : length v = 9).
  { rewrite Forall_forall in Hall. apply Hall.
    by eapply list_elem_of_lookup_2. }
  assert (Hmlt : m < length vs) by (by eapply lookup_lt_Some).
  pose proof (length_concat_chunks 9 vs Hall) as Hcat.
  apply list_eq. intros t. rewrite vertexAt_lookup, list_lookup_fmap.
  case_decide as Ht.
  - simpl. rewrite Hvcc.
    rewrite list_lookup_inserts by (rewrite ?length_fmap, ?Hcat; nia).
    rewrite list_lookup_fmap.
    replace ((vertexCount (super s) + m) * 9 + t - vertexCount (super s) * 9)
      with (m * 9 + t) by lia.
    by rewrite (concat_lookup_chunk 9 vs m v t).
  - by rewrite (lookup_ge_None_2 v t) by lia.
Qed.

(** X2.  The flush of [batchLight] makes room only in a buffer that can hold
    a quad.  With a capacity below 6 the call still writes its six vertices
    from index 0 on: the count ends at 6, above the capacity; the buffer
    keeps its size; the vertices below the capacity are stored and those at
    or beyond it are lost. *)
Theorem batchLight_overflows_small_buffer {T} (q : LightQuad T) s :
  layout s ->
  vertexCapacity (super s) < 6 ->
  let s' := batchQuad q s in
  vertexCount (super s') = 6
  /\ vertexCapacity (super s') < vertexCount (super s')
  /\ length (vertexViewF32 (super s')) = vertexCapacity (super s') * 9
  /\ (forall j v, j < vertexCapacity (super s) ->
        quadVertices q !! j = Some v -> vertexAt s' j = fround <$> v)
  /\ (forall j, vertexCapacity (super s) <= j -> vertexAt s' j = []).
Proof.
  intros [Hvcc Hlen] Hsmall s'.
  assert (Hflush : shouldFlush 6 s = true) by (apply shouldFlush_true; lia).
  destruct (batchQuad_frame q s) as (Hcount & _ & Hcap & Hvcc' & Hlen' & _).
  rewrite Hflush in Hcount.
  change (vertexCount (super (flush s))) with 0 in Hcount.
  fold s' in Hcount, Hcap, Hvcc', Hlen'.
  assert (Hs' : s' = appended (quadVertices q) (flush s)).
  { subst s'. rewrite batchQuad_appended by done. by rewrite Hflush. }
  split; [lia|]. split; [lia|]. split; [lia|]. split.
  - intros j v Hj Hv. rewrite Hs'.
    apply (vertexAt_appended_fits (quadVertices q) (flush s) j v);
      [done|apply quadVertices_length9|done|].
    simpl. lia.
  - intros j Hj. unfold vertexAt. rewrite drop_ge; [done|].
    rewrite Hlen', Hvcc', Hlen, Hvcc. nia.
Qed.

Lemma batchLight_overflows_small_buffer_witness :
  layout exSmall
  /\ vertexCapacity (super exSmall) < 6
  /\ vertexCount (super (batchQuad exQuad exSmall)) = 6
  /\ vertexAt (batchQuad exQuad exSmall) 3 = [].
Proof.
  assert (H1 : layout exSmall) by (split; reflexivity).
  assert (H2 : vertexCapacity (super exSmall) < 6) by (vm_compute; lia).
  destruct (batchLight_overflows_small_buffer exQuad exSmall H1 H2)
    as (Hcount & _ & _ & _ & Hlost).
  exact (conj H1 (conj H2 (conj Hcount (Hlost 3 ltac:(vm_compute; lia))))).
Defined.

Lemma batchQuads_snoc {T} (qs : list (LightQuad T)) q s :
  batchQuads (qs ++ [q]) s = batchQuad q (batchQuads qs s).
Proof. unfold batchQuads. by rewrite foldl_app. Qed.

Lemma drawCounts_app l1 l2 : drawCounts (l1 ++ l2) = drawCounts l1 ++ drawCounts l2.
Proof. apply omap_app. Qed.

(** The batches of a run of [batchLight] calls from an empty batch: [d]
    full batches submitted, [c] quads pending. *)
Lemma batchQuads_batches {T} (qs : list (LightQuad T)) s :
  vertexCount (super s) = 0 ->
  6 <= vertexCapacity (super s) ->
  let k := vertexCapacity (super s) / 6 in
  let s' := batchQuads qs s in
  exists d c draws,
    length qs = k * d + c /\ c <= k /\ (qs <> [] -> 1 <= c)
    /\ vertexCount (super s') = 6 * c
    /\ vertexCapacity (super s') = vertexCapacity (super s)
    /\ calls (gl (super s')) = calls (gl (super s)) ++ draws
    /\ Forall (fun c => is_draw c = true) draws
    /\ length draws = d
    /\ drawCounts draws = replicate d (6 * k).
Proof.
  intros Hempty Hcap k s'. subst s'.
  pose proof (Nat.div_mod_eq (vertexCapacity (super s)) 6) as Hdiv.
  pose proof (Nat.mod_upper_bound (vertexCapacity (super s)) 6) as Hmod.
  fold k in Hdiv.
  induction qs as [|q qs IH] using rev_ind.
  - exists 0, 0, []. simpl. rewrite app_nil_r.
    repeat split; try done; lia.
  - destruct IH as (d & c & draws & Hn & Hck & Hc1 & Hcount & Hcap' & Hcalls
                    & Hall & Hlen & Hdraws).
    rewrite batchQuads_snoc.
    destruct (batchQuad_frame q (batchQuads qs s))
      as (Hcount' & Hgl' & Hcap'' & _).
    rewrite length_app. simpl length.
    destruct (shouldFlush 6 (batchQuads qs s)) eqn:Hflush.
    + apply shouldFlush_true in Hflush.
      assert (c = k) by lia. subst c.
      exists (S d), 1,
        (draws ++ [DrawArrays (vertexCount (super (batchQuads qs s)))
                     (take (vertexCount (super (batchQuads qs s))
                            * vertexComponentCount (super (batchQuads qs s)))
                        (vertexViewF32 (super (batchQuads qs s))))]).
      rewrite Hcount', Hgl', Hcap''. simpl.
      rewrite Hcalls, drawCounts_app, Hdraws, length_app. simpl.
      rewrite Hcount.
      repeat split; try done; try lia.
      * by rewrite app_assoc.
      * apply Forall_app. by repeat constructor.
      * rewrite <-(replicate_S_end). reflexivity.
    + apply shouldFlush_false in Hflush.
      exists d, (S c), draws.
      rewrite Hcount', Hgl', Hcap''.
      repeat split; try done; lia.
Qed.

(** X3.  Starting from an empty batch in a buffer with room for at least one
    quad, any [n >= 1] calls of [batchLight] submit full batches only: with
    [k] the number of whole quads that fit the capacity, the calls issue
    [(n - 1) / k] draws and nothing else, each draw submits exactly [6 k]
    vertices, and [6 ((n - 1) mod k + 1)] vertices are left pending.  No quad
    is ever split between two draws, and the count never passes the
    capacity. *)
Theorem batchLight_submits_full_batches {T} (qs : list (LightQuad T)) s :
  vertexCount (super s) = 0 ->
  6 <= vertexCapacity (super s) ->
  qs <> [] ->
  let k := vertexCapacity (super s) / 6 in
  let n := length qs in
  let s' := batchQuads qs s in
  vertexCount (super s') = 6 * ((n - 1) mod k + 1)
  /\ vertexCount (super s') <= vertexCapacity (super s')
  /\ exists draws,
       calls (gl (super s')) = calls (gl (super s)) ++ draws
       /\ Forall (fun c => is_draw c = true) draws
       /\ length draws = (n - 1) / k
       /\ drawCounts draws = replicate ((n - 1) / k) (6 * k).
Proof.
  intros Hempty Hcap Hqs k n s'.
  destruct (batchQuads_batches qs s Hempty Hcap)
    as (d & c & draws & Hn & Hck & Hc1 & Hcount & Hcap' & Hcalls & Hall
        & Hlen & Hdraws).
  fold k in Hn, Hck, Hdraws. fold s' in Hcount, Hcap', Hcalls. fold n in Hn.
  specialize (Hc1 Hqs).
  pose proof (Nat.div_mod_eq (vertexCapacity (super s)) 6) as Hdiv.
  fold k in Hdiv.
  assert (Hd : d = (n - 1) / k).
  { apply (Nat.div_unique (n - 1) k d (c - 1)); lia. }
  assert (Hr : c - 1 = (n - 1) mod k).
  { apply (Nat.mod_unique (n - 1) k d (c - 1)); lia. }
  rewrite <-Hd, <-Hr. split; [rewrite Hcount; lia|].
  split; [rewrite Hcount, Hcap'; lia|].
  exists draws. by rewrite Hcalls, Hlen, Hdraws.
Qed.

(** Three quads into a buffer that holds one: two draws of six vertices,
    six vertices pending. *)
Lemma batchLight_submits_full_batches_witness :
  vertexCount (super exFresh) = 0
  /\ 6 <= vertexCapacity (super exFresh)
  /\ [exQuad; exQuad; exQuad] <> []
  /\ vertexCount (super (batchQuads [exQuad; exQuad; exQuad] exFresh)) = 6
  /\ exists draws,
       calls (gl (super (batchQuads [exQuad; exQuad; exQuad] exFresh)))
       = calls (gl (super exFresh)) ++ draws
       /\ Forall (fun c => is_draw c = true) draws
       /\ length draws = 2
       /\ drawCounts draws = [6; 6].
Proof.
  assert (H1 : vertexCount (super exFresh) = 0) by reflexivity.
  assert (H2 : 6 <= vertexCapacity (super exFresh)) by (vm_compute; lia).
  assert (H3 : [exQuad; exQuad; exQuad] <> []) by discriminate.
  destruct (batchLight_submits_full_batches [exQuad; exQuad; exQuad] exFresh
              H1 H2 H3) as (Hcount & _ & Hdraws).
  exact (conj H1 (conj H2 (conj H3 (conj Hcount Hdraws)))).
Defined.

(** ** Statements that keep the fields of the subclass *)

Lemma keeps_own_on_super f : keeps_own (on_super f).
Proof. intros s. reflexivity. Qed.

Lemma keeps_own_run body : Forall keeps_own body -> keeps_own (run body).
Proof.
  induction 1 as [|c body Hc _ IH]; intros s.
  - by destruct s.
  - rewrite run_cons. pose proof (IH (c s)) as H1. pose proof (Hc s) as H2.
    destruct (run body (c s)), (c s), s.
    unfold set_super in *. simpl in *. congruence.
Qed.

Lemma keeps_own_batchVert x y lightX lightY radius r g b a :
  keeps_own (batchVert x y lightX lightY radius r g b a).
Proof. intros s. rewrite batchVert_effect. reflexivity. Qed.

Lemma keeps_own_batchLight {T} light (camera : @Camera T)
  x0 y0 x1 y1 x2 y2 x3 y3 lightX lightY :
  keeps_own (batchLight light camera x0 y0 x1 y1 x2 y2 x3 y3 lightX lightY).
Proof.
  intros s.
  exact (proj2 (proj2 (proj2 (proj2 (proj2
    (batchQuad_frame
       {| q_light := light; q_camera := camera;
          q_x0 := x0; q_y0 := y0; q_x1 := x1; q_y1 := y1;
          q_x2 := x2; q_y2 := y2; q_x3 := x3; q_y3 := y3;
          q_lightX := lightX; q_lightY := lightY |} s)))))).
Qed.

Lemma keeps_own_onBind : keeps_own onBind.
Proof. intros s. reflexivity. Qed.

Lemma keeps_own_batchQuads {T} (qs : list (LightQuad T)) :
  keeps_own (batchQuads qs).
Proof.
  induction qs as [|q qs IH] using rev_ind; intros s.
  - by destruct s.
  - rewrite batchQuads_snoc.
    pose proof (keeps_own_batchLight (q_light q) (q_camera q) (q_x0 q)
                  (q_y0 q) (q_x1 q) (q_y1 q) (q_x2 q) (q_y2 q) (q_x3 q)
                  (q_y3 q) (q_lightX q) (q_lightY q) (batchQuads qs s)) as H1.
    fold (batchQuad q) in H1. pose proof (IH s) as H2.
    destruct (batchQuad q (batchQuads qs s)), (batchQuads qs s), s.
    unfold set_super in *. simpl in *. congruence.
Qed.

(** ** Angles that are not numbers *)

Lemma isNaN_never_equal x c : isNaN x = true -> (x =? c)%float = false.
Proof.
  unfold isNaN. rewrite !FloatAxioms.eqb_spec. unfold SFeqb.
  destruct (Prim2SF x) as [sg|sg| |sg m e]; simpl.
  - discriminate.
  - by destruct sg.
  - done.
  - rewrite Z.compare_refl, Pos.compare_cont_refl.
    by destruct sg.
Qed.

Lemma isNaN_falsy x : isNaN x = true -> truthy x = false.
Proof. unfold truthy. intros ->. apply andb_false_r. Qed.

(** ** The text of onRender as a step of a history *)

Section Pass.

Context {TransformMatrix : Type}.
Variable transformPoint : TransformMatrix -> number -> number -> Point -> Point.
Variable cull : LightManager -> @Camera TransformMatrix -> list Light.
Local Abbreviation render := (onRender transformPoint cull).

(** The step keeps the recorded angle or forgets it (line 371). *)
Lemma onRender_rotation scene camera s :
  currentNormalMapRotation (render scene camera s).1
  = currentNormalMapRotation s
  \/ currentNormalMapRotation (render scene camera s).1 = None.
Proof.
  unfold onRender. destruct (sys_lights scene) as [lm|]; [|by left].
  destruct (_ || _); [by left|]. case_bool_decide; [by left|].
  right. by rewrite fst_let_pair.
Qed.

(** The step leaves [defaultNormalMap] alone. *)
Lemma onRender_defaultNormalMap scene camera s :
  defaultNormalMap (render scene camera s).1 = defaultNormalMap s.
Proof.
  unfold onRender. destruct (sys_lights scene) as [lm|]; [|done].
  destruct (_ || _); [done|]. case_bool_decide; [done|].
  rewrite fst_let_pair, uploadLights_emits, resetLights_calls, run_calls.
  by case_bool_decide; destruct (camera_dirty camera).
Qed.

End Pass.

(** ** The rotation cache *)

Section Cache.

Context {TransformMatrix : Type}.
Variable transformPoint : TransformMatrix -> number -> number -> Point -> Point.
Variable cull : LightManager -> @Camera TransformMatrix -> list Light.
Variable WebGLPipeline_boot : WebGLPipeline -> WebGLPipeline.
Variables Math_cos Math_sin : number -> number.
Local Abbreviation setRotation := (setNormalMapRotation Math_cos Math_sin).
Local Abbreviation reach :=
  (reachable transformPoint cull WebGLPipeline_boot Math_cos Math_sin).
Local Abbreviation render := (onRender transformPoint cull).

Lemma coherent_preserved s s' :
  inverseRotationMatrix s' = inverseRotationMatrix s ->
  currentNormalMapRotation s' = currentNormalMapRotation s ->
  coherent Math_cos Math_sin s -> coherent Math_cos Math_sin s'.
Proof.
  intros Hm Hc [H1 H2]. split; [|by rewrite Hm].
  intros r Hr. rewrite Hm. apply H1. by rewrite <-Hc.
Qed.

Lemma keeps_own_rotation c s :
  keeps_own c -> currentNormalMapRotation (c s) = currentNormalMapRotation s.
Proof. intros H. rewrite (H s). reflexivity. Qed.

Lemma keeps_own_matrix c s :
  keeps_own c -> inverseRotationMatrix (c s) = inverseRotationMatrix s.
Proof. intros H. rewrite (H s). reflexivity. Qed.

Lemma reachable_coherent s : reach s -> coherent Math_cos Math_sin s.
Proof.
  induction 1 as [maxLights base|f s _ IH|s _ IH
                 |x y lightX lightY radius r g b a s _ IH
                 |light camera x0 y0 x1 y1 x2 y2 x3 y3 lightX lightY s _ IH
                 |s _ IH|scene camera s _ IH|rotation s Hs IH].
  - split; [discriminate|]. by exists 0%float.
  - by apply (coherent_preserved s).
  - by apply (coherent_preserved s).
  - apply (coherent_preserved s); [|apply keeps_own_rotation|done];
      [apply keeps_own_matrix|]; apply keeps_own_batchVert.
  - apply (coherent_preserved s); [|apply keeps_own_rotation|done];
      [apply keeps_own_matrix|]; apply keeps_own_batchLight.
  - by apply (coherent_preserved s).
  - destruct IH as [H1 H2]. split.
    + intros r Hr. rewrite onRender_keeps_matrix.
      destruct (onRender_rotation transformPoint cull scene camera s)
        as [Heq|Heq]; rewrite Heq in Hr; [by apply H1|discriminate].
    + by rewrite onRender_keeps_matrix.
  - destruct (rotation_differs rotation (currentNormalMapRotation s)
              || bool_decide (vertexCount (super s) = 0)) eqn:Hguard.
    + rewrite setNormalMapRotation_upload;
        [|by eapply reachable_homogeneous|done].
      split; [|by eexists]. simpl. by intros r [= <-].
    + by rewrite setNormalMapRotation_skip.
Qed.

(** X4.  On a pipeline with any call history the rotation cache is coherent:
    whenever an angle is on record, the stored matrix is the inverse rotation
    of exactly that angle, which is what lets line 388 skip the upload; with
    or without an angle on record the matrix is the inverse rotation of some
    angle, so its entries 0 and 4 (the two cosines) are equal. *)
Theorem setNormalMapRotation_cache_is_coherent s :
  reachable transformPoint cull WebGLPipeline_boot Math_cos Math_sin s ->
  (forall r, currentNormalMapRotation s = Some r ->
     inverseRotationMatrix s = inverseRotation Math_cos Math_sin r)
  /\ (exists a, inverseRotationMatrix s = inverseRotation Math_cos Math_sin a)
  /\ inverseRotationMatrix s !! 0 = inverseRotationMatrix s !! 4.
Proof.
  intros Hs. destruct (reachable_coherent s Hs) as [H1 [a Ha]].
  split; [done|]. split; [by exists a|].
  rewrite Ha. unfold inverseRotation. by destruct (truthy a).
Qed.

(** X5.  An angle that is not a number defeats the cache.  NaN is strictly
    equal to nothing, so the guard of line 388 always holds, and NaN is
    falsy, so the call takes the branch of line 409: it flushes what is
    pending, stores and uploads the identity and records NaN.  The next call
    with NaN does the same again. *)
Theorem setNormalMapRotation_NaN_always_uploads rotation s :
  reachable transformPoint cull WebGLPipeline_boot Math_cos Math_sin s ->
  isNaN rotation = true ->
  let s' := setNormalMapRotation Math_cos Math_sin rotation s in
  let s'' := setNormalMapRotation Math_cos Math_sin rotation s' in
  let identity := [1; 0; 0; 0; 1; 0; 0; 0; 1]%float in
  let up :=
    SetMatrix3 (program (super s)) "uInverseRotationMatrix" false identity in
  calls (gl (super s'))
  = calls (gl (super (if bool_decide (0 < vertexCount (super s))
                      then flush s else s))) ++ [up]
  /\ inverseRotationMatrix s' = identity
  /\ currentNormalMapRotation s' = Some rotation
  /\ vertexCount (super s') = 0
  /\ calls (gl (super s'')) = calls (gl (super s')) ++ [up].
Proof.
  intros Hs Hnan s' s'' identity up.
  assert (Hguard : forall t,
            rotation_differs rotation (currentNormalMapRotation t)
            || bool_decide (vertexCount (super t) = 0) = true).
  { intros t. unfold rotation_differs, strict_eq.
    destruct (currentNormalMapRotation t) as [c|]; [|done].
    by rewrite isNaN_never_equal. }
  assert (HM : inverseRotation Math_cos Math_sin rotation = identity).
  { unfold inverseRotation. by rewrite isNaN_falsy. }
  assert (Hs' : s' = set_currentNormalMapRotation (Some rotation)
            (call up (set_inverseRotationMatrix identity
               (if bool_decide (0 < vertexCount (super s))
                then flush s else s)))).
  { subst s'. rewrite setNormalMapRotation_upload;
      [|by eapply reachable_homogeneous|done].
    by rewrite HM. }
  assert (Hcount : vertexCount (super s') = 0).
  { rewrite Hs'. case_bool_decide; simpl; lia. }
  assert (Hp : program (super s') = program (super s)).
  { rewrite Hs'. by destruct (bool_decide (0 < vertexCount (super s))). }
  split; [by rewrite Hs'|]. split; [by rewrite Hs'|].
  split; [by rewrite Hs'|]. split; [done|].
  subst s''. rewrite setNormalMapRotation_upload; [|by rewrite Hs'|done].
  rewrite HM, Hcount, Hp. by rewrite bool_decide_eq_false_2 by lia.
Qed.

(** X7.  Between quads the cache works: after [setNormalMapRotation] with an
    angle that is a number, followed by one or more [batchLight] calls, a
    further [setNormalMapRotation] with the same angle changes nothing, so
    it neither flushes the pending quads nor uploads. *)
Theorem setNormalMapRotation_skipped_between_quads rotation
  (qs : list (LightQuad TransformMatrix)) s :
  isNaN rotation = false ->
  qs <> [] ->
  let s1 := setNormalMapRotation Math_cos Math_sin rotation s in
  let s2 := batchQuads qs s1 in
  setNormalMapRotation Math_cos Math_sin rotation s2 = s2
  /\ 0 < vertexCount (super s2).
Proof.
  intros Hnum Hqs s1 s2.
  assert (Hsame : rotation_differs rotation (currentNormalMapRotation s1)
                  = false).
  { subst s1. unfold setNormalMapRotation.
    destruct (rotation_differs rotation (currentNormalMapRotation s)
              || bool_decide (vertexCount (super s) = 0)) eqn:Hguard.
    - cbv zeta. simpl. unfold isNaN in Hnum. unfold strict_eq.
      by destruct (rotation =? rotation)%float.
    - by apply orb_false_elim in Hguard as [? _]. }
  assert (Hcount : 0 < vertexCount (super s2)).
  { subst s2. destruct qs as [|q qs] using rev_ind; [done|].
    rewrite batchQuads_snoc.
    destruct (batchQuad_frame q (batchQuads qs s1)) as (-> & _). lia. }
  split; [|done]. apply setNormalMapRotation_skip.
  subst s2. rewrite (keeps_own_rotation (batchQuads qs)), Hsame
    by apply keeps_own_batchQuads.
  by rewrite bool_decide_eq_false_2 by lia.
Qed.

End Cache.

Lemma setNormalMapRotation_NaN_always_uploads_witness :
  reachable exTransformPoint exCull exBoot hostCos hostSin exFull
  /\ isNaN nan = true
  /\ inverseRotationMatrix (setNormalMapRotation hostCos hostSin nan exFull)
     = [1; 0; 0; 0; 1; 0; 0; 0; 1]%float.
Proof.
  assert (H1 := exFull_reachable).
  assert (H2 : isNaN nan = true) by reflexivity.
  destruct (setNormalMapRotation_NaN_always_uploads exTransformPoint exCull
              exBoot hostCos hostSin nan exFull H1 H2) as (_ & H & _).
  exact (conj H1 (conj H2 H)).
Defined.

Lemma setNormalMapRotation_cache_is_coherent_witness :
  reachable exTransformPoint exCull exBoot hostCos hostSin exFull
  /\ inverseRotationMatrix exFull !! 0 = inverseRotationMatrix exFull !! 4.
Proof.
  assert (H1 := exFull_reachable).
  destruct (setNormalMapRotation_cache_is_coherent exTransformPoint exCull
              exBoot hostCos hostSin exFull H1) as (_ & _ & H).
  exact (conj H1 H).
Defined.

Lemma setNormalMapRotation_skipped_between_quads_witness :
  isNaN 0%float = false
  /\ [exQuad] <> []
  /\ setNormalMapRotation hostCos hostSin 0%float exFull = exFull.
Proof.
  assert (H1 : isNaN 0%float = false) by reflexivity.
  assert (H2 : [exQuad] <> []) by discriminate.
  destruct (setNormalMapRotation_skipped_between_quads hostCos hostSin
              0%float [exQuad] exFresh H1 H2) as [H _].
  exact (conj H1 (conj H2 H)).
Defined.

(** ** Normal maps and the default texture *)

(** X15.  The first source that a renderable has decides alone.  With a
    display texture and its frame, the result is the normal map of the
    display texture at the frame's source index, and the default texture
    when there is none at that index: [texture] and [tileset] are not
    consulted, even if they hold a normal map.  In the same way [texture]
    shadows [tileset], and a renderable with none of the three gets the
    default. *)
Theorem getNormalMap_first_source_decides (go : GameObject) s :
  (forall dt f,
     displayTexture go = Some dt -> displayFrame go = Some f ->
     getNormalMap (Some go) s
     = match dataSource dt !! sourceIndex f with
       | Some n => Ok (glTexture n)
       | None => getNormalMap None s
       end)
  /\ (forall t f,
        displayTexture go = None -> texture go = Some t -> frame go = Some f ->
        getNormalMap (Some go) s
        = match dataSource t !! sourceIndex f with
          | Some n => Ok (glTexture n)
          | None => getNormalMap None s
          end)
  /\ (displayTexture go = None -> texture go = None -> tileset go = None ->
      getNormalMap (Some go) s = getNormalMap None s).
Proof.
  unfold getNormalMap. split; [|split].
  - intros dt f Hdt Hf. rewrite Hdt, Hf. simpl.
    by destruct (dataSource dt !! sourceIndex f), (defaultNormalMap s).
  - intros t f Hdt Ht Hf. rewrite Hdt, Ht, Hf. simpl.
    by destruct (dataSource t !! sourceIndex f), (defaultNormalMap s).
  - intros Hdt Ht Hts. rewrite Hdt, Ht, Hts. simpl.
    by destruct (defaultNormalMap s).
Qed.

(** A display texture without a normal map hides the normal map of the
    texture: the result is the default of the booted pipeline, handle 0, and
    not the handle 7 of the texture. *)
Lemma getNormalMap_first_source_decides_witness :
  getNormalMap (Some exShadowed) (boot exBoot exFresh) = Ok 0.
Proof.
  exact (proj1 (getNormalMap_first_source_decides exShadowed
                  (boot exBoot exFresh))
           {| dataSource := [] |} {| sourceIndex := 0 |} eq_refl eq_refl).
Defined.

(** X16.  A tileset given as an array is read through its element 0 only.
    With an empty array the call throws, on a booted pipeline too, whereas a
    renderable without any tileset gets the default; a first tileset without
    an image throws as well. *)
Theorem getNormalMap_tileset_array (go : GameObject) ts s :
  displayTexture go = None ->
  texture go = None ->
  tileset go = Some (TilesetArray ts) ->
  getNormalMap (Some go) s
  = match ts with
    | [] => TypeError
    | t :: _ =>
        match image t with
        | None => TypeError
        | Some i =>
            match dataSource i !! 0 with
            | Some n => Ok (glTexture n)
            | None => getNormalMap None s
            end
        end
    end.
Proof.
  unfold getNormalMap. intros Hdt Ht Hts. rewrite Hdt, Ht, Hts.
  destruct ts as [|t ts]; [done|].
  simpl. destruct (image t) as [i|]; [|done]. simpl.
  by destruct (dataSource i !! 0), (defaultNormalMap s).
Qed.

Lemma getNormalMap_tileset_array_witness :
  displayTexture exEmptyLayer = None
  /\ texture exEmptyLayer = None
  /\ tileset exEmptyLayer = Some (TilesetArray [])
  /\ getNormalMap (Some exEmptyLayer) (boot exBoot exFresh) = TypeError.
Proof.
  exact (conj eq_refl (conj eq_refl (conj eq_refl
           (getNormalMap_tileset_array exEmptyLayer [] (boot exBoot exFresh)
              eq_refl eq_refl eq_refl)))).
Defined.

Lemma getNormalMap_default s d :
  defaultNormalMap s = Some d -> getNormalMap None s = Ok (glTexture d).
Proof. unfold getNormalMap. simpl. by intros ->. Qed.

Section Default.

Context {TransformMatrix : Type}.
Variable transformPoint : TransformMatrix -> number -> number -> Point -> Point.
Variable cull : LightManager -> @Camera TransformMatrix -> list Light.
Variable WebGLPipeline_boot : WebGLPipeline -> WebGLPipeline.
Variables Math_cos Math_sin : number -> number.

Lemma setNormalMapRotation_defaultNormalMap rotation s :
  defaultNormalMap (setNormalMapRotation Math_cos Math_sin rotation s)
  = defaultNormalMap s.
Proof.
  unfold setNormalMapRotation.
  destruct (_ || _); [|done]. cbv zeta.
  by destruct (bool_decide (0 < vertexCount (super s))), (truthy rotation).
Qed.

Lemma keeps_own_defaultNormalMap c s :
  keeps_own c -> defaultNormalMap (c s) = defaultNormalMap s.
Proof. intros H. rewrite (H s). reflexivity. Qed.

(** X17.  [defaultNormalMap] is assigned by [boot] and by nothing else: no
    sequence of calls of the other methods changes it.  So on a pipeline
    that was constructed and never booted, [getNormalMap] without a
    renderable throws, whatever was called since; and after [boot] it
    returns the texture that [boot] created, whatever was called since. *)
Theorem defaultNormalMap_assigned_by_boot_alone s0 s :
  without_boot transformPoint cull Math_cos Math_sin s0 s ->
  defaultNormalMap s = defaultNormalMap s0
  /\ (forall maxLights base,
        s0 = initialize maxLights base -> getNormalMap None s = TypeError)
  /\ (forall s1,
        s0 = boot WebGLPipeline_boot s1 ->
        getNormalMap None s
        = Ok (created (gl (WebGLPipeline_boot (super s1))))).
Proof.
  intros Hs.
  assert (Hsame : defaultNormalMap s = defaultNormalMap s0).
  { induction Hs as [|f s _ IH|x y lightX lightY radius r g b a s _ IH
                    |light camera x0 y0 x1 y1 x2 y2 x3 y3 lightX lightY s _ IH
                    |s _ IH|scene camera s _ IH|rotation s _ IH].
    - done.
    - done.
    - by rewrite keeps_own_defaultNormalMap by apply keeps_own_batchVert.
    - by rewrite keeps_own_defaultNormalMap by apply keeps_own_batchLight.
    - done.
    - by rewrite onRender_defaultNormalMap.
    - by rewrite setNormalMapRotation_defaultNormalMap. }
  split; [done|]. unfold getNormalMap. simpl. rewrite Hsame. split.
  - by intros maxLights base ->.
  - intros s1 ->.
    destruct (boot_effect WebGLPipeline_boot s1) as (-> & _). done.
Qed.

(** X18.  What [boot] does to the texture state of the context: texture
    unit 0 is left active with the new texture bound to it, in place of
    whatever was bound there; the bindings of the other units and the images
    of the other textures are as the base class left them.  The method
    assigns [defaultNormalMap] (and the two shader fields of lines 209-210,
    which the record leaves out); it does not touch the rotation cache, so
    an angle on record survives [boot] with its matrix, nor the recorded
    light count, nor the batch, which is as the base class left it. *)
Theorem boot_binds_default_to_unit_0 s :
  let b := WebGLPipeline_boot (super s) in
  let h := created (gl b) in
  let s' := boot WebGLPipeline_boot s in
  activeUnit (gl (super s')) = 0
  /\ bound (gl (super s')) !! 0 = Some h
  /\ (forall u, u <> 0 -> bound (gl (super s')) !! u = bound (gl b) !! u)
  /\ (forall t, t <> h -> textures (gl (super s')) !! t = textures (gl b) !! t)
  /\ defaultNormalMap s' = Some {| glTexture := h |}
  /\ currentNormalMapRotation s' = currentNormalMapRotation s
  /\ inverseRotationMatrix s' = inverseRotationMatrix s
  /\ lightCount s' = lightCount s
  /\ vertexCount (super s') = vertexCount b
  /\ vertexViewF32 (super s') = vertexViewF32 b.
Proof.
  intros b h s'. subst s' h b. unfold boot. simpl.
  unfold texImage2D. simpl. rewrite lookup_insert_eq. simpl.
  split; [done|]. split; [apply lookup_insert_eq|].
  split; [intros u Hu; by apply lookup_insert_ne|].
  split; [intros t Ht; by apply lookup_insert_ne|].
  by repeat split.
Qed.

(** X19.  [boot] is not idempotent.  When the [boot] of the base class does
    not hand texture handles back, a second [boot] creates a second texture
    and makes it the default; the texture of the first [boot] is no longer
    what [getNormalMap] falls back to. *)
Theorem boot_twice_replaces_default s :
  (forall b, created (gl b) <= created (gl (WebGLPipeline_boot b))) ->
  let s1 := boot WebGLPipeline_boot s in
  let s2 := boot WebGLPipeline_boot s1 in
  exists h1 h2,
    defaultNormalMap s1 = Some {| glTexture := h1 |}
    /\ defaultNormalMap s2 = Some {| glTexture := h2 |}
    /\ h1 < h2
    /\ getNormalMap None s1 = Ok h1
    /\ getNormalMap None s2 = Ok h2
    /\ textures (gl (super s2)) !! h2
       = Some {| tex_width := 1; tex_height := 1;
                 tex_pixels := [127; 127; 255; 255]%N |}.
Proof.
  intros Hmono s1 s2.
  destruct (boot_effect WebGLPipeline_boot s) as (Hd1 & _ & Hc1 & _).
  destruct (boot_effect WebGLPipeline_boot s1) as (Hd2 & Ht2 & _).
  fold s1 in Hd1, Hc1. fold s2 in Hd2, Ht2.
  eexists _, _. split; [exact Hd1|]. split; [exact Hd2|].
  split; [|split; [|split]].
  - pose proof (Hmono (super s1)). lia.
  - exact (getNormalMap_default s1 _ Hd1).
  - exact (getNormalMap_default s2 _ Hd2).
  - rewrite Ht2. apply lookup_insert_eq.
Qed.

End Default.

(** Constructed, never booted, then a rotation and a quad. *)
Lemma defaultNormalMap_assigned_by_boot_alone_witness :
  without_boot exTransformPoint exCull hostCos hostSin exFresh exFull
  /\ getNormalMap None exFull = TypeError.
Proof.
  assert (H1 : without_boot exTransformPoint exCull hostCos hostSin exFresh
                 exFull).
  { unfold exFull, batchQuad. apply since_batchLight.
    apply since_setNormalMapRotation. apply since_here. }
  destruct (defaultNormalMap_assigned_by_boot_alone exTransformPoint exCull
              exBoot hostCos hostSin exFresh exFull H1) as (_ & H & _).
  exact (conj H1 (H 10 (WebGLPipeline_new 6) eq_refl)).
Defined.

Lemma boot_twice_replaces_default_witness :
  (forall b, created (gl b) <= created (gl (exBoot b)))
  /\ getNormalMap None (boot exBoot (boot exBoot exFresh)) = Ok 1.
Proof.
  assert (H1 : forall b, created (gl b) <= created (gl (exBoot b)))
    by (intros b; apply le_n).
  destruct (boot_twice_replaces_default exBoot exFresh H1)
    as (h1 & h2 & _ & H2 & _ & _ & H & _).
  injection H2 as <-.
  exact (conj H1 H).
Defined.

(** ** The first rotation call on a new pipeline *)

Section Fresh.

Variables Math_cos Math_sin : number -> number.

(** X21.  The constructor leaves no angle on record.  Hence the first
    [setNormalMapRotation] call on a new pipeline passes the guard of line
    388 for every angle, 0 included and also when the base class left
    vertices pending: it stores the matrix of the angle, uploads it (one
    more matrix upload) and records the angle. *)
Theorem initialize_first_rotation_uploads maxLights base rotation :
  let s := initialize maxLights base in
  let s' := setNormalMapRotation Math_cos Math_sin rotation s in
  currentNormalMapRotation s = None
  /\ currentNormalMapRotation s' = Some rotation
  /\ inverseRotationMatrix s' = inverseRotation Math_cos Math_sin rotation
  /\ matrixUploads (calls (gl (super s')))
     = matrixUploads (calls (gl base))
       ++ [ SetMatrix3 (program base) "uInverseRotationMatrix" false
              (inverseRotation Math_cos Math_sin rotation) ].
Proof.
  intros s s'. subst s'. split; [done|].
  rewrite setNormalMapRotation_upload; [|by repeat split|done].
  split; [done|]. split; [done|].
  unfold matrixUploads.
  case_bool_decide; simpl; rewrite !filter_app; simpl;
    by rewrite ?app_nil_r.
Qed.

End Fresh.
